(** * import_db.py: the SQL script splitter and the import runner

    A shallow embedding of [src/import_db.py].  Python's [str] is a sequence
    of Unicode code points; the statement splitter of [execute_sql_file]
    (lines 37-55) is a left-to-right loop over the lines of the script with
    two locals, [current_statement] and [statements]; the runner part
    (lines 58-73), [verify_data] and [main] talk to the database driver and
    are embedded in a state-and-exception monad over an abstract driver. *)

From Stdlib Require Import List NArith Bool Lia String Ascii.
From Stdlib Require Import PeanoNat.
Import ListNotations.

Set Implicit Arguments.

(** ** Python strings *)

Module PyStr.

(** A character is a code point, a string is a list of them. *)
Definition char : Type := N.
Definition str : Type := list char.

Definition of_string (s : string) : str :=
  List.map N_of_ascii (list_ascii_of_string s).

(** [str.isspace] on one character ([Py_UNICODE_ISSPACE]): the code points
    of bidirectional type WS, B or S, or of category Zs. *)
Definition isspace (c : char) : bool :=
  (((0x09 <=? c) && (c <=? 0x0D)) ||
   ((0x1C <=? c) && (c <=? 0x20)) ||
   (c =? 0x85) || (c =? 0xA0) || (c =? 0x1680) ||
   ((0x2000 <=? c) && (c <=? 0x200A)) ||
   (c =? 0x2028) || (c =? 0x2029) || (c =? 0x202F) ||
   (c =? 0x205F) || (c =? 0x3000))%N.

(** [s.lstrip()], [s.rstrip()] and [s.strip()] without argument. *)
Fixpoint lstrip (s : str) : str :=
  match s with
  | [] => []
  | c :: t => if isspace c then lstrip t else s
  end.

Definition rstrip (s : str) : str := rev (lstrip (rev s)).

Definition strip (s : str) : str := rstrip (lstrip s).

(** [s.startswith(p)]. *)
Fixpoint startswith (s p : str) : bool :=
  match p with
  | [] => true
  | c :: p' =>
      match s with
      | [] => false
      | d :: s' => (d =? c)%N && startswith s' p'
      end
  end.

(** [s.endswith(p)]. *)
Definition endswith (s p : str) : bool := startswith (rev s) (rev p).

(** Truth value of a string: [not s] holds of the empty string only. *)
Definition truthy (s : str) : bool :=
  match s with
  | [] => false
  | _ :: _ => true
  end.

(** [sep.join(parts)]. *)
Fixpoint join (sep : str) (parts : list str) : str :=
  match parts with
  | [] => []
  | [p] => p
  | p :: rest => p ++ sep ++ join sep rest
  end.

End PyStr.

Import PyStr.

Definition SPACE : str := [0x20%N].
Definition HASH : str := [0x23%N].
Definition DASHES : str := [0x2D%N; 0x2D%N].
Definition SEMI : str := [0x3B%N].

(** ** The statement splitter (execute_sql_file, lines 37-55) *)

(** The test of line 43, on a line that has been stripped. *)
Definition is_skipped (line : str) : bool :=
  negb (truthy line) || startswith line HASH || startswith line DASHES.

(** One iteration of the loop of lines 40-51, on the pair of locals
    [(current_statement, statements)]. *)
Definition split_step (st : str * list str) (raw : str) : str * list str :=
  let '(current_statement, statements) := st in
  let line := strip raw in
  if is_skipped line then (current_statement, statements)
  else
    let current_statement := current_statement ++ SPACE ++ line in
    if endswith line SEMI
    then ([], statements ++ [strip current_statement])
    else (current_statement, statements).

(** The whole loop, from the fresh locals of lines 37-38. *)
Definition split_loop (lines : list str) : str * list str :=
  fold_left split_step lines ([], []).

(** Lines 53-55: the unfinished statement, if any, is appended. *)
Definition split_flush (st : str * list str) : list str :=
  let '(current_statement, statements) := st in
  if truthy (strip current_statement)
  then statements ++ [strip current_statement]
  else statements.

(** The list [statements] as it stands at line 57. *)
Definition split_statements (lines : list str) : list str :=
  split_flush (split_loop lines).

(** The input of the scenario of the specification. *)
Definition scenario_lines : list str :=
  List.map of_string
    [ "CREATE TABLE t (id INT);"%string;
      "-- comment"%string;
      "INSERT INTO t VALUES (1);"%string;
      "INSERT INTO t VALUES (2)"%string ].

(** *** The same loop as a transition system

    A configuration holds the lines still to be read and the two locals.
    Every transition consumes one line; the three rules are the three ways
    through the body of the loop (lines 41-51). *)

Record config : Type := Config {
  pending : list str;
  current_statement : str;
  statements : list str
}.

Inductive split_trans : config -> config -> Prop :=
| trans_skip : forall raw rest cur stmts,
    is_skipped (strip raw) = true ->
    split_trans (Config (raw :: rest) cur stmts) (Config rest cur stmts)
| trans_accumulate : forall raw rest cur stmts,
    is_skipped (strip raw) = false ->
    endswith (strip raw) SEMI = false ->
    split_trans (Config (raw :: rest) cur stmts)
                (Config rest (cur ++ SPACE ++ strip raw) stmts)
| trans_emit : forall raw rest cur stmts,
    is_skipped (strip raw) = false ->
    endswith (strip raw) SEMI = true ->
    split_trans (Config (raw :: rest) cur stmts)
                (Config rest [] (stmts ++ [strip (cur ++ SPACE ++ strip raw)])).

Inductive split_trans_star : config -> config -> Prop :=
| star_refl : forall c, split_trans_star c c
| star_step : forall c1 c2 c3,
    split_trans c1 c2 -> split_trans_star c2 c3 -> split_trans_star c1 c3.

(** A run of the splitter: from fresh locals, through all the lines, then
    the flush of lines 53-55. *)
Inductive split_run (lines : list str) : list str -> Prop :=
| split_run_intro : forall cur stmts,
    split_trans_star (Config lines [] []) (Config [] cur stmts) ->
    split_run lines (split_flush (cur, stmts)).

(** *** What the splitter computes, said without the loop *)

(** The lines that take part in statements: stripped, and not skipped. *)
Definition kept_lines (lines : list str) : list str :=
  filter (fun line => negb (is_skipped line)) (List.map strip lines).

(** The kept lines cut after every line that ends in a semicolon; [run] is
    the run under construction. *)
Fixpoint runs_from (run : list str) (kept : list str) : list (list str) :=
  match kept with
  | [] => match run with [] => [] | _ :: _ => [run] end
  | k :: kept' =>
      if endswith k SEMI
      then (run ++ [k]) :: runs_from [] kept'
      else runs_from (run ++ [k]) kept'
  end.

Definition runs (kept : list str) : list (list str) := runs_from [] kept.

(** The kept lines after the last one that ends in a semicolon. *)
Fixpoint trailing_run (kept : list str) : list str :=
  match kept with
  | [] => []
  | k :: kept' =>
      if existsb (fun l => endswith l SEMI) kept then trailing_run kept'
      else kept
  end.

(** ** Exceptions, the driver and the trace *)

(** The classes of exception the program tells apart: its handlers name
    [mysql.connector.Error] (lines 23, 67, 114) and [Exception] (line 76);
    [sys.exit] raises [SystemExit], which like [KeyboardInterrupt] is a
    [BaseException] outside [Exception]. *)
Inductive exn : Type :=
| MySQLError (msg : str)
| OtherException (msg : str)
| SystemExit (code : nat)
| OtherBaseException (msg : str).

Inductive result (A : Type) : Type :=
| Ok (a : A)
| Raise (e : exn).

Arguments Ok {A} a.
Arguments Raise {A} e.

Definition raised {A : Type} (r : result A) : option exn :=
  match r with
  | Ok _ => None
  | Raise e => Some e
  end.

(** The calls the program makes on the file system and on the driver. *)
Inductive operation : Type :=
| OpExists
| OpReadLines
| OpConnect
| OpCursor
| OpExecute (sql : str)
| OpCommit
| OpFetchOne
| OpFetchAll
| OpCursorClose
| OpClose.

(** What the program prints, one constructor per [print] of the source. *)
Inductive message : Type :=
| MsgStart
| MsgFileMissing
| MsgConnectFailed (err : str)
| MsgNoConnection
| MsgExecuting (number : nat) (preview : str)
| MsgSuccess
| MsgFailure (err : str)
| MsgStatement (statement : str)
| MsgCompleted
| MsgFileFailed (err : str)
| MsgVerifying
| MsgImportFailed
| MsgUserCount (v : str)
| MsgProductCount (v : str)
| MsgOrderCount (v : str)
| MsgSampleHeader
| MsgSampleUser (id name email : str)
| MsgVerifyFailed (err : str)
| MsgClosed.

(** A trace records every call with the exception it raised, if any, and
    every line printed, in the order they happen. *)
Inductive event : Type :=
| Call (op : operation) (exc : option exn)
| Print (m : message).

(** The collaborators: the file system and the MySQL driver, over a state
    [D] of their own.  A row is the list of its printed fields; [fetchone]
    returns [None] when there is no row. *)
Record driver (D : Type) : Type := Driver {
  path_exists : D -> bool * D;
  readlines : D -> result (list str) * D;
  connect : D -> result unit * D;
  cursor : D -> result unit * D;
  execute : str -> D -> result unit * D;
  commit : D -> result unit * D;
  fetchone : D -> result (option (list str)) * D;
  fetchall : D -> result (list (list str)) * D;
  cursor_close : D -> result unit * D;
  close : D -> result unit * D
}.

(** ** The monad of the runner: driver state, exceptions, trace *)

Section Runner.

Variable D : Type.
Variable drv : driver D.

Definition M (A : Type) : Type := D -> result A * D * list event.

Definition ret {A : Type} (a : A) : M A := fun d => (Ok a, d, []).

Definition bind {A B : Type} (m : M A) (k : A -> M B) : M B :=
  fun d =>
    match m d with
    | (Ok a, d1, t1) =>
        match k a d1 with
        | (r, d2, t2) => (r, d2, t1 ++ t2)
        end
    | (Raise e, d1, t1) => (Raise e, d1, t1)
    end.

Definition raise {A : Type} (e : exn) : M A := fun d => (Raise e, d, []).

Definition print (m : message) : M unit := fun d => (Ok tt, d, [Print m]).

Definition call {A : Type} (op : operation) (f : D -> result A * D) : M A :=
  fun d =>
    match f d with
    | (r, d1) => (r, d1, [Call op (raised r)])
    end.

(** [try: body except ...: handler]; [handler e] is [None] when no clause
    matches [e], which then propagates. *)
Definition try_except {A : Type} (body : M A) (handler : exn -> option (M A))
  : M A :=
  fun d =>
    match body d with
    | (Ok a, d1, t1) => (Ok a, d1, t1)
    | (Raise e, d1, t1) =>
        match handler e with
        | Some h =>
            match h d1 with
            | (r, d2, t2) => (r, d2, t1 ++ t2)
            end
        | None => (Raise e, d1, t1)
        end
    end.

(** [try: body finally: final]: [final] runs whatever [body] did; an
    exception of [final] replaces the outcome of [body]. *)
Definition try_finally {A : Type} (body : M A) (final : M unit) : M A :=
  fun d =>
    match body d with
    | (r, d1, t1) =>
        match final d1 with
        | (Ok _, d2, t2) => (r, d2, t1 ++ t2)
        | (Raise e, d2, t2) => (Raise e, d2, t1 ++ t2)
        end
    end.

Notation "x <- m ;; k" := (bind m (fun x => k))
  (at level 61, m at next level, right associativity).
Notation "m ;; k" := (bind m (fun _ => k))
  (at level 61, right associativity).

(** [row[i]]: [IndexError] past the end. *)
Definition index (row : list str) (i : nat) : M str :=
  match nth_error row i with
  | Some v => ret v
  | None => raise (OtherException (of_string "tuple index out of range"))
  end.

(** [cursor.fetchone()[0]]: [TypeError] when there is no row. *)
Definition fetchone_0 : M str :=
  row <- call OpFetchOne (fetchone drv) ;;
  match row with
  | Some r => index r 0
  | None =>
      raise (OtherException (of_string "'NoneType' object is not subscriptable"))
  end.

(** ** connect_to_mysql (lines 12-25): [true] stands for the connection,
    [false] for [None]. *)
Definition connect_to_mysql : M bool :=
  try_except
    (call OpConnect (connect drv) ;; ret true)
    (fun e =>
       match e with
       | MySQLError err => Some (print (MsgConnectFailed err) ;; ret false)
       | _ => None
       end).

(** ** execute_sql_file (lines 27-80) *)

(** The body of the loop of lines 58-71 for statement number [i]. *)
Definition run_statement (i : nat) (statement : str) : M unit :=
  if negb (truthy statement) then ret tt
  else
    try_except
      (print (MsgExecuting (i + 1) (firstn 80 statement)) ;;
       call (OpExecute statement) (execute drv statement) ;;
       call OpCommit (commit drv) ;;
       print MsgSuccess)
      (fun e =>
         match e with
         | MySQLError err =>
             Some (print (MsgFailure err) ;; print (MsgStatement statement))
         | _ => None
         end).

Fixpoint run_statements (i : nat) (stmts : list str) : M unit :=
  match stmts with
  | [] => ret tt
  | statement :: rest =>
      run_statement i statement ;; run_statements (S i) rest
  end.

Definition execute_sql_file : M bool :=
  try_except
    (call OpCursor (cursor drv) ;;
     lines <- call OpReadLines (readlines drv) ;;
     run_statements 0 (split_statements lines) ;;
     call OpCursorClose (cursor_close drv) ;;
     print MsgCompleted ;;
     ret true)
    (fun e =>
       match e with
       | MySQLError err | OtherException err =>
           Some (print (MsgFileFailed err) ;; ret false)
       | _ => None
       end).

(** ** verify_data (lines 82-115) *)

Fixpoint print_users (users : list (list str)) : M unit :=
  match users with
  | [] => ret tt
  | user :: rest =>
      id <- index user 0 ;;
      name <- index user 1 ;;
      email <- index user 2 ;;
      print (MsgSampleUser id name email) ;;
      print_users rest
  end.

Definition sql (s : string) : M unit :=
  call (OpExecute (of_string s)) (execute drv (of_string s)).

Definition verify_data : M unit :=
  try_except
    (call OpCursor (cursor drv) ;;
     sql "USE dynamic_data_service" ;;
     sql "SELECT COUNT(*) FROM users" ;;
     user_count <- fetchone_0 ;;
     print (MsgUserCount user_count) ;;
     sql "SELECT COUNT(*) FROM products" ;;
     product_count <- fetchone_0 ;;
     print (MsgProductCount product_count) ;;
     sql "SELECT COUNT(*) FROM orders" ;;
     order_count <- fetchone_0 ;;
     print (MsgOrderCount order_count) ;;
     sql "SELECT id, name, email FROM users LIMIT 3" ;;
     users <- call OpFetchAll (fetchall drv) ;;
     print MsgSampleHeader ;;
     print_users users ;;
     call OpCursorClose (cursor_close drv))
    (fun e =>
       match e with
       | MySQLError err => Some (print (MsgVerifyFailed err))
       | _ => None
       end).

(** ** main (lines 117-144) *)

Definition main : M unit :=
  print MsgStart ;;
  found <- call OpExists (fun d => let (b, d1) := path_exists drv d in (Ok b, d1)) ;;
  if negb found then print MsgFileMissing ;; raise (SystemExit 1)
  else
    connection <- connect_to_mysql ;;
    if negb connection then print MsgNoConnection ;; raise (SystemExit 1)
    else
      try_finally
        (imported <- execute_sql_file ;;
         if imported then print MsgVerifying ;; verify_data
         else print MsgImportFailed)
        (call OpClose (close drv) ;; print MsgClosed).

End Runner.

(** ** Reading a trace *)

Inductive outcome : Type :=
| Success
| Failure (message : str).

(** The statements submitted to [cursor.execute], in order. *)
Fixpoint attempted (t : list event) : list str :=
  match t with
  | [] => []
  | Call (OpExecute s) _ :: t' => s :: attempted t'
  | _ :: t' => attempted t'
  end.

(** The outcomes reported, in order: the marks of lines 66 and 68. *)
Fixpoint recorded (t : list event) : list outcome :=
  match t with
  | [] => []
  | Print MsgSuccess :: t' => Success :: recorded t'
  | Print (MsgFailure err) :: t' => Failure err :: recorded t'
  | _ :: t' => recorded t'
  end.

(** The number of calls of [connection.close()]. *)
Fixpoint closes (t : list event) : nat :=
  match t with
  | [] => 0
  | Call OpClose _ :: t' => S (closes t')
  | _ :: t' => closes t'
  end.

(** A connection was established: [mysql.connector.connect] returned. *)
Definition is_connected (e : event) : bool :=
  match e with
  | Call OpConnect None => true
  | _ => false
  end.

Definition established (t : list event) : bool := existsb is_connected t.

(** The trace of a computation. *)
Definition trace_of {D A : Type} (m : D -> result A * D * list event) (d : D)
  : list event := snd (m d).

Definition outcome_of {D A : Type} (m : D -> result A * D * list event) (d : D)
  : result A := fst (fst (m d)).

(** ** What the driver answers to a statement *)

Section Assignment.

Variable D : Type.
Variable drv : driver D.

(** The outcome the driver assigns to [statement] in state [d]: success
    when [execute] and [commit] both return, failure when one of them
    raises a database error; [None] when something else is raised. *)
Definition assigned_outcome (statement : str) (d : D) : option outcome * D :=
  match execute drv statement d with
  | (Ok _, d1) =>
      match commit drv d1 with
      | (Ok _, d2) => (Some Success, d2)
      | (Raise (MySQLError err), d2) => (Some (Failure err), d2)
      | (Raise _, d2) => (None, d2)
      end
  | (Raise (MySQLError err), d1) => (Some (Failure err), d1)
  | (Raise _, d1) => (None, d1)
  end.

Fixpoint assigned_outcomes (stmts : list str) (d : D) : list (option outcome) :=
  match stmts with
  | [] => []
  | statement :: rest =>
      let (o, d1) := assigned_outcome statement d in
      o :: assigned_outcomes rest d1
  end.

End Assignment.

(** A driver for examples: its state counts the calls of [execute], and
    the call number [failing] raises a database error. *)
Definition counting_driver (failing : nat) : driver nat :=
  {| path_exists := fun n => (true, n);
     readlines := fun n => (Ok scenario_lines, n);
     connect := fun n => (Ok tt, n);
     cursor := fun n => (Ok tt, n);
     execute := fun _ n =>
       (if Nat.eqb n failing then Raise (MySQLError (of_string "1064"))
        else Ok tt, S n);
     commit := fun n => (Ok tt, n);
     fetchone := fun n => (Ok None, n);
     fetchall := fun n => (Ok [], n);
     cursor_close := fun n => (Ok tt, n);
     close := fun n => (Ok tt, n) |}.

(** ** Notions used in the statements *)

(** No white space at the front; the empty string qualifies. *)
Definition head_clean (s : str) : bool :=
  match s with
  | [] => true
  | c :: _ => negb (isspace c)
  end.

(** A line as line 41 leaves it when it is not skipped: not empty, and no
    white space at either end. *)
Definition clean (s : str) : Prop :=
  s <> [] /\ head_clean s = true /\ head_clean (rev s) = true.

(** The accumulator while the run [run] of kept lines is unfinished: line
    46 puts a space before every line. *)
Definition accumulated (run : list str) : str :=
  flat_map (fun line => SPACE ++ line) run.

(** A line of a script in which every line is a whole statement: once
    stripped it is not empty, is not a comment and ends in a semicolon. *)
Definition statement_line (raw : str) : bool :=
  truthy (strip raw) &&
  negb (startswith (strip raw) HASH) &&
  negb (startswith (strip raw) DASHES) &&
  endswith (strip raw) SEMI.

(** A blank line or a comment line: line 43 drops it. *)
Definition skipped_line (raw : str) : bool := is_skipped (strip raw).

(** A computation that never calls [connection.close()]. *)
Definition quiet {D A : Type} (m : M D A) : Prop :=
  forall d, closes (trace_of m d) = 0.

(** ** Further notions: reading calls off a trace *)

(** The driver state a computation ends in. *)
Definition state_of {D A : Type} (m : M D A) (d : D) : D := snd (fst (m d)).

(** The operations called, in order. *)
Fixpoint calls (t : list event) : list operation :=
  match t with
  | [] => []
  | Call op _ :: t' => op :: calls t'
  | Print _ :: t' => calls t'
  end.

(** A computation that calls allowed operations only. *)
Definition only_calls {D A : Type} (allowed : operation -> bool) (m : M D A)
  : Prop :=
  forall d, forallb allowed (calls (trace_of m d)) = true.

(** The number of calls of [connection.commit()]. *)
Fixpoint commits (t : list event) : nat :=
  match t with
  | [] => 0
  | Call OpCommit _ :: t' => S (commits t')
  | _ :: t' => commits t'
  end.

(** The number of calls of [cursor.execute] that returned. *)
Fixpoint executed (t : list event) : nat :=
  match t with
  | [] => 0
  | Call (OpExecute _) None :: t' => S (executed t')
  | _ :: t' => executed t'
  end.

(** [isinstance(e, mysql.connector.Error)] and [isinstance(e, Exception)]. *)
Definition is_database_error (e : exn) : bool :=
  match e with
  | MySQLError _ => true
  | _ => false
  end.

Definition is_exception (e : exn) : bool :=
  match e with
  | MySQLError _ | OtherException _ => true
  | SystemExit _ | OtherBaseException _ => false
  end.

(** The statements of [verify_data], lines 88, 91, 96, 101 and 106. *)
Definition verify_queries : list str :=
  List.map of_string
    [ "USE dynamic_data_service"%string;
      "SELECT COUNT(*) FROM users"%string;
      "SELECT COUNT(*) FROM products"%string;
      "SELECT COUNT(*) FROM orders"%string;
      "SELECT id, name, email FROM users LIMIT 3"%string ].

(** [b] is [a] with white space added at its ends, as a line read by
    [readlines] carries its indentation and its newline. *)
Definition padded (a b : str) : Prop :=
  exists w1 w2,
    forallb isspace w1 = true /\ forallb isspace w2 = true /\
    b = w1 ++ a ++ w2.

(** The calls of the import and of the verification. *)
Definition import_call (op : operation) : bool :=
  match op with
  | OpCursor | OpReadLines | OpExecute _ | OpCommit | OpCursorClose => true
  | _ => false
  end.

Definition verify_call (op : operation) : bool :=
  match op with
  | OpCursor | OpExecute _ | OpFetchOne | OpFetchAll | OpCursorClose => true
  | _ => false
  end.

Definition statement_call (op : operation) : bool :=
  match op with
  | OpExecute _ | OpCommit => true
  | _ => false
  end.

Definition is_fetch (op : operation) : bool :=
  match op with
  | OpFetchOne | OpFetchAll => true
  | _ => false
  end.

(** A driver for examples whose call number [failing] of [execute] raises
    an exception that is not a database error. *)
Definition crashing_driver (failing : nat) : driver nat :=
  {| path_exists := fun n => (true, n);
     readlines := fun n => (Ok scenario_lines, n);
     connect := fun n => (Ok tt, n);
     cursor := fun n => (Ok tt, n);
     execute := fun _ n =>
       (if Nat.eqb n failing then Raise (OtherException (of_string "boom"))
        else Ok tt, S n);
     commit := fun n => (Ok tt, n);
     fetchone := fun n => (Ok None, n);
     fetchall := fun n => (Ok [], n);
     cursor_close := fun n => (Ok tt, n);
     close := fun n => (Ok tt, n) |}.

(** [cursor.close()] was called and returned. *)
Definition cursor_closed (t : list event) : bool :=
  existsb (fun e => match e with
                    | Call OpCursorClose None => true
                    | _ => false
                    end) t.

(** A driver for examples on which reading the script raises [e]. *)
Definition unreadable_driver (e : exn) : driver nat :=
  {| path_exists := fun n => (true, n);
     readlines := fun n => (Raise e, n);
     connect := fun n => (Ok tt, n);
     cursor := fun n => (Ok tt, n);
     execute := fun _ n => (Ok tt, S n);
     commit := fun n => (Ok tt, n);
     fetchone := fun n => (Ok None, n);
     fetchall := fun n => (Ok [], n);
     cursor_close := fun n => (Ok tt, n);
     close := fun n => (Ok tt, n) |}.

(** The body of the [try] of lines 133-139 of [main]. *)
Definition import_and_verify {D : Type} (drv : driver D) : M D unit :=
  bind (execute_sql_file drv)
    (fun imported : bool =>
       if imported
       then bind (@print D MsgVerifying) (fun _ => verify_data drv)
       else @print D MsgImportFailed).

(** Drivers for examples: one without the script file, one on which
    [mysql.connector.connect] raises [e]. *)
Definition absent_file_driver : driver nat :=
  {| path_exists := fun n => (false, n);
     readlines := fun n => (Raise (OtherException (of_string "FileNotFoundError")), n);
     connect := fun n => (Ok tt, n);
     cursor := fun n => (Ok tt, n);
     execute := fun _ n => (Ok tt, S n);
     commit := fun n => (Ok tt, n);
     fetchone := fun n => (Ok None, n);
     fetchall := fun n => (Ok [], n);
     cursor_close := fun n => (Ok tt, n);
     close := fun n => (Ok tt, n) |}.

Definition refusing_driver (e : exn) : driver nat :=
  {| path_exists := fun n => (true, n);
     readlines := fun n => (Ok scenario_lines, n);
     connect := fun n => (Raise e, n);
     cursor := fun n => (Ok tt, n);
     execute := fun _ n => (Ok tt, S n);
     commit := fun n => (Ok tt, n);
     fetchone := fun n => (Ok None, n);
     fetchall := fun n => (Ok [], n);
     cursor_close := fun n => (Ok tt, n);
     close := fun n => (Ok tt, n) |}.

(** A driver for examples with rows to fetch. *)
Definition populated_driver : driver nat :=
  {| path_exists := fun n => (true, n);
     readlines := fun n => (Ok scenario_lines, n);
     connect := fun n => (Ok tt, n);
     cursor := fun n => (Ok tt, n);
     execute := fun _ n => (Ok tt, S n);
     commit := fun n => (Ok tt, n);
     fetchone := fun n => (Ok (Some [of_string "3"]), n);
     fetchall := fun n =>
       (Ok [[of_string "1"; of_string "Ann"; of_string "ann@example.org"]], n);
     cursor_close := fun n => (Ok tt, n);
     close := fun n => (Ok tt, n) |}.

(** * Properties *)

(** ** Stripping *)

Lemma lstrip_head_clean (s : str) : head_clean (lstrip s) = true.
Proof.
  induction s as [|c t IH]; simpl; [reflexivity|].
  destruct (isspace c) eqn:E; [exact IH|].
  simpl. now rewrite E.
Qed.

Lemma lstrip_fixed (s : str) : head_clean s = true -> lstrip s = s.
Proof.
  destruct s as [|c t]; simpl; [reflexivity|].
  now destruct (isspace c).
Qed.

Lemma lstrip_app (a b : str) :
  lstrip (a ++ b) =
  match lstrip a with
  | [] => lstrip b
  | _ :: _ => lstrip a ++ b
  end.
Proof.
  induction a as [|c t IH]; simpl; [reflexivity|].
  destruct (isspace c); [exact IH|reflexivity].
Qed.

Lemma rstrip_head_clean (s : str) :
  head_clean s = true -> head_clean (rstrip s) = true.
Proof.
  unfold rstrip. destruct s as [|c t]; [reflexivity|].
  simpl. intros Hc. rewrite lstrip_app. simpl.
  destruct (isspace c) eqn:Ec; [discriminate|].
  destruct (lstrip (rev t)) as [|x r]; simpl.
  - now rewrite Ec.
  - rewrite rev_app_distr. simpl. now rewrite Ec.
Qed.

Lemma strip_head_clean (s : str) : head_clean (strip s) = true.
Proof. apply rstrip_head_clean, lstrip_head_clean. Qed.

Lemma strip_tail_clean (s : str) : head_clean (rev (strip s)) = true.
Proof.
  unfold strip, rstrip. rewrite rev_involutive. apply lstrip_head_clean.
Qed.

Lemma strip_fixed (s : str) :
  head_clean s = true -> head_clean (rev s) = true -> strip s = s.
Proof.
  intros Hh Ht. unfold strip, rstrip.
  rewrite (lstrip_fixed s Hh), (lstrip_fixed (rev s) Ht).
  apply rev_involutive.
Qed.

Lemma strip_idempotent (s : str) : strip (strip s) = strip s.
Proof. apply strip_fixed; [apply strip_head_clean|apply strip_tail_clean]. Qed.

Lemma clean_strip (s : str) : clean s -> strip s = s.
Proof. intros (_ & Hh & Ht). now apply strip_fixed. Qed.

Lemma strip_space_front (s : str) : strip (SPACE ++ s) = strip s.
Proof. reflexivity. Qed.

Lemma is_skipped_nonempty (s : str) : is_skipped s = false -> s <> [].
Proof. intros H ->. discriminate H. Qed.

(** A line that passes the test of line 43 is clean. *)
Lemma kept_clean (raw : str) : is_skipped (strip raw) = false -> clean (strip raw).
Proof.
  intros H. split; [now apply is_skipped_nonempty|].
  split; [apply strip_head_clean|apply strip_tail_clean].
Qed.

Lemma kept_lines_clean (lines : list str) : Forall clean (kept_lines lines).
Proof.
  unfold kept_lines. induction lines as [|raw rest IH]; simpl; [constructor|].
  destruct (is_skipped (strip raw)) eqn:E; simpl; [exact IH|].
  constructor; [now apply kept_clean|exact IH].
Qed.

(** ** The accumulator and [join] *)

Lemma head_clean_app (a b : str) : a <> [] -> head_clean (a ++ b) = head_clean a.
Proof. destruct a; [congruence|reflexivity]. Qed.

Lemma accumulated_snoc (run : list str) (line : str) :
  accumulated (run ++ [line]) = accumulated run ++ SPACE ++ line.
Proof.
  unfold accumulated. rewrite flat_map_app. simpl. now rewrite app_nil_r.
Qed.

Lemma accumulated_join (run : list str) :
  run <> [] -> accumulated run = SPACE ++ join SPACE run.
Proof.
  induction run as [|l rest IH]; [congruence|]. intros _.
  destruct rest as [|l2 r].
  - simpl. now rewrite app_nil_r.
  - change (accumulated (l :: l2 :: r))
      with (SPACE ++ l ++ accumulated (l2 :: r)).
    rewrite IH by discriminate. reflexivity.
Qed.

Lemma join_clean (run : list str) :
  Forall clean run -> run <> [] -> clean (join SPACE run).
Proof.
  induction run as [|l rest IH]; [congruence|]. intros Hall _.
  inversion Hall as [|? ? Hl Hrest]; subst.
  destruct rest as [|l2 r]; [exact Hl|].
  destruct (IH Hrest ltac:(discriminate)) as (Hne & Hh & Ht).
  destruct Hl as (Hlne & Hlh & _).
  change (join SPACE (l :: l2 :: r)) with (l ++ SPACE ++ join SPACE (l2 :: r)).
  set (J := join SPACE (l2 :: r)) in *.
  split; [|split].
  - destruct l; [congruence|discriminate].
  - now rewrite head_clean_app.
  - rewrite !rev_app_distr, <- app_assoc, head_clean_app; [exact Ht|].
    intros E. apply Hne. apply (f_equal (@rev char)) in E.
    now rewrite rev_involutive in E.
Qed.

Lemma strip_accumulated (run : list str) :
  Forall clean run -> run <> [] -> strip (accumulated run) = join SPACE run.
Proof.
  intros Hall Hne. rewrite accumulated_join by exact Hne.
  rewrite strip_space_front. now apply clean_strip, join_clean.
Qed.

Lemma truthy_nonempty (s : str) : s <> [] -> truthy s = true.
Proof. destruct s; [congruence|reflexivity]. Qed.

(** ** The loop computes the runs of the kept lines *)

Lemma kept_lines_cons (raw : str) (rest : list str) :
  kept_lines (raw :: rest) =
  if is_skipped (strip raw) then kept_lines rest
  else strip raw :: kept_lines rest.
Proof. unfold kept_lines. simpl. now destruct (is_skipped (strip raw)). Qed.

Lemma kept_lines_app (l1 l2 : list str) :
  kept_lines (l1 ++ l2) = kept_lines l1 ++ kept_lines l2.
Proof. unfold kept_lines. now rewrite map_app, filter_app. Qed.

Lemma split_step_cases (cur : str) (stmts : list str) (raw : str) :
  split_step (cur, stmts) raw =
  if is_skipped (strip raw) then (cur, stmts)
  else if endswith (strip raw) SEMI
       then ([], stmts ++ [strip (cur ++ SPACE ++ strip raw)])
       else (cur ++ SPACE ++ strip raw, stmts).
Proof. reflexivity. Qed.

Lemma split_from_runs (lines : list str) :
  forall (run : list str) (stmts : list str),
    Forall clean run ->
    split_flush (fold_left split_step lines (accumulated run, stmts)) =
    stmts ++ List.map (join SPACE) (runs_from run (kept_lines lines)).
Proof.
  induction lines as [|raw rest IH]; intros run stmts Hrun.
  - simpl. destruct run as [|l r].
    + simpl. now rewrite app_nil_r.
    + rewrite strip_accumulated by (assumption || discriminate).
      rewrite truthy_nonempty; [reflexivity|].
      apply join_clean; [assumption|discriminate].
  - rewrite kept_lines_cons.
    change (fold_left split_step (raw :: rest) (accumulated run, stmts))
      with (fold_left split_step rest (split_step (accumulated run, stmts) raw)).
    rewrite split_step_cases.
    destruct (is_skipped (strip raw)) eqn:Eskip.
    + now apply IH.
    + pose proof (kept_clean raw Eskip) as Hclean.
      assert (Hrun' : Forall clean (run ++ [strip raw])).
      { apply Forall_app. split; [assumption|]. now constructor. }
      rewrite <- accumulated_snoc. simpl runs_from.
      destruct (endswith (strip raw) SEMI).
      * rewrite strip_accumulated; [|assumption|now destruct run].
        change (@nil char) with (accumulated []).
        rewrite IH by constructor. simpl. now rewrite <- app_assoc.
      * now apply IH.
Qed.

Lemma split_statements_runs (lines : list str) :
  split_statements lines = List.map (join SPACE) (runs (kept_lines lines)).
Proof.
  unfold split_statements, split_loop.
  change (@nil char, @nil str) with (accumulated [], @nil str).
  now rewrite split_from_runs by constructor.
Qed.

Lemma runs_from_concat (kept : list str) :
  forall run, List.concat (runs_from run kept) = run ++ kept.
Proof.
  induction kept as [|k rest IH]; intros run; simpl.
  - destruct run; simpl; now rewrite ?app_nil_r.
  - destruct (endswith k SEMI); simpl.
    + rewrite IH. simpl. now rewrite <- app_assoc.
    + rewrite IH. now rewrite <- app_assoc.
Qed.

Lemma runs_from_nonempty (kept : list str) :
  forall run, Forall (fun r => r <> []) (runs_from run kept).
Proof.
  induction kept as [|k rest IH]; intros run; simpl.
  - destruct run; constructor; [discriminate|constructor].
  - destruct (endswith k SEMI); [|apply IH].
    constructor; [now destruct run|apply IH].
Qed.

Lemma runs_from_clean (kept : list str) :
  forall run, Forall clean run -> Forall clean kept ->
    Forall (Forall clean) (runs_from run kept).
Proof.
  induction kept as [|k rest IH]; intros run Hrun Hkept; simpl.
  - destruct run; constructor; [assumption|constructor].
  - inversion Hkept as [|? ? Hk Hrest]; subst.
    assert (Forall clean (run ++ [k])).
    { apply Forall_app. split; [assumption|now constructor]. }
    destruct (endswith k SEMI).
    + constructor; [assumption|]. apply IH; [constructor|assumption].
    + now apply IH.
Qed.

(** ** What is left in the accumulator after the loop *)

Lemma trailing_run_all (kept : list str) :
  existsb (fun l => endswith l SEMI) kept = false -> trailing_run kept = kept.
Proof. destruct kept as [|k rest]; [reflexivity|]. intros H. simpl in *. now rewrite H. Qed.

Lemma trailing_run_cons (k : str) (rest : list str) :
  existsb (fun l => endswith l SEMI) (k :: rest) = true ->
  trailing_run (k :: rest) = trailing_run rest.
Proof. intros H. simpl in *. now rewrite H. Qed.

Lemma split_loop_pending (lines : list str) :
  forall (run : list str) (stmts : list str),
    fst (fold_left split_step lines (accumulated run, stmts)) =
    accumulated
      (if existsb (fun l => endswith l SEMI) (kept_lines lines)
       then trailing_run (kept_lines lines)
       else run ++ kept_lines lines).
Proof.
  induction lines as [|raw rest IH]; intros run stmts.
  - simpl. now rewrite app_nil_r.
  - rewrite kept_lines_cons.
    change (fold_left split_step (raw :: rest) (accumulated run, stmts))
      with (fold_left split_step rest (split_step (accumulated run, stmts) raw)).
    rewrite split_step_cases.
    destruct (is_skipped (strip raw)); [apply IH|].
    rewrite <- accumulated_snoc.
    destruct (endswith (strip raw) SEMI) eqn:Esemi.
    + change (@nil char) with (accumulated []). rewrite IH.
      assert (Hex : existsb (fun l => endswith l SEMI)
                      (strip raw :: kept_lines rest) = true)
        by (simpl; now rewrite Esemi).
      rewrite Hex, (trailing_run_cons _ _ Hex).
      destruct (existsb _ (kept_lines rest)) eqn:Erest; [reflexivity|].
      now rewrite (trailing_run_all _ Erest).
    + rewrite IH.
      assert (Hex : existsb (fun l => endswith l SEMI)
                      (strip raw :: kept_lines rest) =
                    existsb (fun l => endswith l SEMI) (kept_lines rest))
        by (simpl; now rewrite Esemi).
      rewrite Hex.
      destruct (existsb _ (kept_lines rest)) eqn:Erest.
      * rewrite trailing_run_cons; [reflexivity|]. now rewrite Hex.
      * now rewrite <- app_assoc.
Qed.

Lemma trailing_run_nonempty (kept : list str) :
  kept <> [] -> endswith (last kept []) SEMI = false -> trailing_run kept <> [].
Proof.
  induction kept as [|k rest IH]; [congruence|]. intros _ Hlast.
  destruct (existsb (fun l => endswith l SEMI) (k :: rest)) eqn:Hex.
  - rewrite (trailing_run_cons _ _ Hex).
    destruct rest as [|k2 r].
    + simpl in Hex, Hlast. rewrite Hlast in Hex. discriminate.
    + apply IH; [discriminate|exact Hlast].
  - rewrite (trailing_run_all _ Hex). discriminate.
Qed.

Lemma trailing_run_clean (kept : list str) :
  Forall clean kept -> Forall clean (trailing_run kept).
Proof.
  induction kept as [|k rest IH]; intros H; [constructor|].
  destruct (existsb (fun l => endswith l SEMI) (k :: rest)) eqn:Hex.
  - rewrite (trailing_run_cons _ _ Hex). inversion H; subst. now apply IH.
  - now rewrite (trailing_run_all _ Hex).
Qed.

(** ** The transition system and the loop agree *)

Lemma split_trans_functional (c c1 c2 : config) :
  split_trans c c1 -> split_trans c c2 -> c1 = c2.
Proof.
  intros H1 H2. inversion H1; subst; inversion H2; subst;
    reflexivity || congruence.
Qed.

Lemma split_trans_final (cur : str) (stmts : list str) (c : config) :
  ~ split_trans (Config [] cur stmts) c.
Proof. intros H. inversion H. Qed.

Lemma split_trans_star_functional (c : config) :
  forall cur1 stmts1 cur2 stmts2,
    split_trans_star c (Config [] cur1 stmts1) ->
    split_trans_star c (Config [] cur2 stmts2) ->
    cur1 = cur2 /\ stmts1 = stmts2.
Proof.
  intros cur1 stmts1 cur2 stmts2 H1.
  remember (Config [] cur1 stmts1) as final eqn:Efinal.
  induction H1 as [c|c c' c'' Hstep Hstar IH]; intros H2.
  - subst c. inversion H2 as [|? ? ? Hstep]; subst.
    + now split.
    + exfalso. exact (split_trans_final Hstep).
  - inversion H2 as [|? c2 ? Hstep2 Hstar2]; subst.
    + exfalso. exact (split_trans_final Hstep).
    + rewrite (split_trans_functional Hstep Hstep2) in IH.
      now apply IH.
Qed.

Lemma split_trans_star_loop (lines : list str) :
  forall cur stmts,
    split_trans_star (Config lines cur stmts)
      (Config [] (fst (fold_left split_step lines (cur, stmts)))
                 (snd (fold_left split_step lines (cur, stmts)))).
Proof.
  induction lines as [|raw rest IH]; intros cur stmts.
  - apply star_refl.
  - change (fold_left split_step (raw :: rest) (cur, stmts))
      with (fold_left split_step rest (split_step (cur, stmts) raw)).
    rewrite split_step_cases.
    destruct (is_skipped (strip raw)) eqn:Eskip.
    + eapply star_step; [now apply trans_skip|apply IH].
    + destruct (endswith (strip raw) SEMI) eqn:Esemi.
      * eapply star_step; [now apply trans_emit|apply IH].
      * eapply star_step; [now apply trans_accumulate|apply IH].
Qed.

Lemma split_run_computes (lines : list str) :
  split_run lines (split_statements lines).
Proof.
  unfold split_statements, split_loop.
  rewrite (surjective_pairing (fold_left split_step lines ([], []))).
  constructor. apply split_trans_star_loop.
Qed.

(** ** The splitter: the claims *)

Lemma statement_line_kept (raw : str) :
  statement_line raw = true ->
  is_skipped (strip raw) = false /\ endswith (strip raw) SEMI = true.
Proof.
  unfold statement_line, is_skipped. intros H.
  apply andb_prop in H as [H Hsemi]. apply andb_prop in H as [H Hd].
  apply andb_prop in H as [Ht Hh].
  rewrite Ht. apply negb_true_iff in Hh, Hd. rewrite Hh, Hd. now split.
Qed.

Lemma runs_from_terminated (kept : list str) :
  Forall (fun k => endswith k SEMI = true) kept ->
  runs_from [] kept = List.map (fun k => [k]) kept.
Proof.
  induction 1 as [|k rest Hk _ IH]; [reflexivity|].
  simpl. rewrite Hk. now rewrite IH.
Qed.

(** C1: when every line, once stripped, is non-empty, is no comment and
    ends in a semicolon, the splitter yields one statement per line, the
    stripped lines themselves, in the order of the lines. *)
Theorem one_statement_per_terminated_line (lines : list str) :
  Forall (fun raw => statement_line raw = true) lines ->
  split_statements lines = List.map strip lines /\
  List.length (split_statements lines) = List.length lines.
Proof.
  intros Hall.
  assert (E : split_statements lines = List.map strip lines).
  { rewrite split_statements_runs. unfold runs.
    assert (Hk : kept_lines lines = List.map strip lines
                 /\ Forall (fun k => endswith k SEMI = true) (kept_lines lines)).
    { induction Hall as [|raw rest Hraw _ [IH1 IH2]]; [now split|].
      destruct (statement_line_kept raw Hraw) as [Hskip Hsemi].
      rewrite kept_lines_cons, Hskip. simpl. rewrite IH1.
      split; [reflexivity|]. constructor; [assumption|now rewrite <- IH1]. }
    destruct Hk as [Hk1 Hk2].
    rewrite (runs_from_terminated Hk2), Hk1, !map_map. reflexivity. }
  split; [exact E|]. now rewrite E, length_map.
Qed.

Lemma one_statement_per_terminated_line_witness :
  split_statements [of_string "  SELECT 1; "; of_string "USE db;"] =
    [of_string "SELECT 1;"; of_string "USE db;"] /\
  List.length (split_statements [of_string "  SELECT 1; "; of_string "USE db;"]) = 2.
Proof.
  apply (@one_statement_per_terminated_line
           [of_string "  SELECT 1; "; of_string "USE db;"]).
  repeat constructor.
Defined.

Lemma trailing_run_last (kept : list str) :
  kept <> [] -> endswith (last kept []) SEMI = false ->
  last (trailing_run kept) [] = last kept [].
Proof.
  induction kept as [|k rest IH]; [congruence|]. intros _ Hlast.
  destruct (existsb (fun l => endswith l SEMI) (k :: rest)) eqn:Hex.
  - rewrite (trailing_run_cons _ _ Hex).
    destruct rest as [|k2 r].
    + simpl in Hex, Hlast. rewrite Hlast in Hex. discriminate.
    + rewrite IH; [reflexivity|discriminate|exact Hlast].
  - now rewrite (trailing_run_all _ Hex).
Qed.

(** C2: when the last kept line does not end in a semicolon, the text left
    in the accumulator after the loop is the trailing kept lines joined by
    spaces; it is not empty, and it is appended to the statements the loop
    emitted, as the last statement. *)
Theorem unterminated_tail_is_emitted (lines : list str) :
  kept_lines lines <> [] ->
  endswith (last (kept_lines lines) []) SEMI = false ->
  let tail := trailing_run (kept_lines lines) in
  last tail [] = last (kept_lines lines) [] /\
  strip (fst (split_loop lines)) = join SPACE tail /\
  join SPACE tail <> [] /\
  split_statements lines = snd (split_loop lines) ++ [join SPACE tail].
Proof.
  intros Hne Hlast tail.
  pose proof (trailing_run_nonempty Hne Hlast) as Htail.
  pose proof (trailing_run_clean (kept_lines_clean lines)) as Hclean.
  assert (Hcur : fst (split_loop lines) = accumulated tail).
  { unfold split_loop. change (@nil char, @nil str) with (accumulated [], @nil str).
    rewrite split_loop_pending.
    destruct (existsb _ (kept_lines lines)) eqn:Hex; [reflexivity|].
    simpl. unfold tail. now rewrite (trailing_run_all _ Hex). }
  assert (Hstrip : strip (fst (split_loop lines)) = join SPACE tail).
  { rewrite Hcur. now apply strip_accumulated. }
  assert (Hjoin : join SPACE tail <> []).
  { now apply join_clean. }
  split; [now apply trailing_run_last|].
  split; [exact Hstrip|]. split; [exact Hjoin|].
  unfold split_statements.
  rewrite (surjective_pairing (split_loop lines)). unfold split_flush.
  rewrite Hstrip. now rewrite truthy_nonempty.
Qed.

Lemma unterminated_tail_is_emitted_witness :
  split_statements scenario_lines =
    snd (split_loop scenario_lines) ++ [of_string "INSERT INTO t VALUES (2)"].
Proof.
  apply (@unterminated_tail_is_emitted scenario_lines).
  - vm_compute. discriminate.
  - vm_compute. reflexivity.
Defined.

Lemma kept_lines_skip (before after : list str) (c : str) :
  skipped_line c = true ->
  kept_lines (before ++ c :: after) = kept_lines (before ++ after).
Proof.
  unfold skipped_line. intros Hc.
  now rewrite !kept_lines_app, kept_lines_cons, Hc.
Qed.

(** C3: a blank or comment line adds nothing to any statement: the
    splitter yields the same statements with the line as without it,
    wherever it stands; between two kept lines of which the first does not
    end its statement, the two are joined into one statement. *)
Theorem skipped_line_contributes_nothing :
  (forall (before after : list str) (c : str),
      skipped_line c = true ->
      split_statements (before ++ c :: after) = split_statements (before ++ after)) /\
  (forall a c b : str,
      skipped_line a = false -> endswith (strip a) SEMI = false ->
      skipped_line c = true ->
      skipped_line b = false ->
      split_statements [a; c; b] = [strip a ++ SPACE ++ strip b]).
Proof.
  split.
  - intros before after c Hc.
    now rewrite !split_statements_runs, (kept_lines_skip before after c Hc).
  - unfold skipped_line. intros a c b Ha Hsemi Hc Hb.
    rewrite split_statements_runs. unfold runs.
    rewrite !kept_lines_cons, Ha, Hc, Hb.
    change (kept_lines []) with (@nil str).
    simpl. rewrite Hsemi. now destruct (endswith (strip b) SEMI).
Qed.

Lemma skipped_line_contributes_nothing_witness :
  split_statements
    ([of_string "SELECT a,"] ++ of_string "-- the columns" :: [of_string "b FROM t;"]) =
  split_statements ([of_string "SELECT a,"] ++ [of_string "b FROM t;"]) /\
  split_statements
    [of_string "SELECT a,"; of_string "  # the columns"; of_string "b FROM t;"] =
  [of_string "SELECT a," ++ SPACE ++ of_string "b FROM t;"].
Proof.
  split.
  - apply (proj1 skipped_line_contributes_nothing
             [of_string "SELECT a,"] [of_string "b FROM t;"]
             (of_string "-- the columns")).
    reflexivity.
  - apply (proj2 skipped_line_contributes_nothing
             (of_string "SELECT a,") (of_string "  # the columns")
             (of_string "b FROM t;")); reflexivity.
Defined.

(** C4: a script of blank and comment lines only yields no statement. *)
Theorem only_comments_no_statement (lines : list str) :
  Forall (fun raw => skipped_line raw = true) lines ->
  split_statements lines = [].
Proof.
  intros Hall. rewrite split_statements_runs.
  replace (kept_lines lines) with (@nil str); [reflexivity|].
  induction Hall as [|raw rest Hraw _ IH]; [reflexivity|].
  unfold skipped_line in Hraw. now rewrite kept_lines_cons, Hraw.
Qed.

Lemma only_comments_no_statement_witness :
  split_statements
    [of_string "# header"; of_string "   "; of_string "-- SELECT 1;"; []] = [].
Proof.
  apply (@only_comments_no_statement
           [of_string "# header"; of_string "   "; of_string "-- SELECT 1;"; []]).
  repeat constructor.
Defined.

(** C5: on the four lines of the scenario the splitter yields the three
    statements, in order, the last of them without its semicolon. *)
Theorem scenario_three_statements :
  split_statements scenario_lines =
  List.map of_string
    [ "CREATE TABLE t (id INT);"%string;
      "INSERT INTO t VALUES (1);"%string;
      "INSERT INTO t VALUES (2)"%string ].
Proof. vm_compute. reflexivity. Qed.

Lemma split_statements_clean (lines : list str) :
  Forall clean (split_statements lines).
Proof.
  rewrite split_statements_runs. unfold runs.
  pose proof (runs_from_nonempty (kept_lines lines) []) as Hne.
  pose proof (@runs_from_clean (kept_lines lines) [] (Forall_nil _)
                (kept_lines_clean lines)) as Hclean.
  induction (runs_from [] (kept_lines lines)) as [|r rs IH]; [constructor|].
  inversion Hne; subst. inversion Hclean; subst.
  simpl. constructor; [|now apply IH].
  now apply join_clean.
Qed.

(** C6: no statement the splitter yields is empty, before or after
    trimming. *)
Theorem statements_never_blank (lines : list str) :
  Forall (fun statement => statement <> [] /\ strip statement <> [])
         (split_statements lines).
Proof.
  eapply Forall_impl; [|apply split_statements_clean].
  intros s Hs. rewrite (clean_strip Hs). destruct Hs as [Hs _]. now split.
Qed.

(** C7: the splitter is deterministic: every script has a run, and two
    runs on the same lines end with the same statements, which are those
    the loop computes. *)
Theorem splitter_deterministic (lines : list str) :
  (exists out, split_run lines out) /\
  (forall out1 out2,
      split_run lines out1 -> split_run lines out2 ->
      out1 = out2 /\ out1 = split_statements lines).
Proof.
  split; [exists (split_statements lines); apply split_run_computes|].
  assert (Huniq : forall o1 o2, split_run lines o1 -> split_run lines o2 -> o1 = o2).
  { intros o1 o2 H1 H2.
    destruct H1 as [cur1 stmts1 H1]. destruct H2 as [cur2 stmts2 H2].
    destruct (split_trans_star_functional H1 H2) as [-> ->]. reflexivity. }
  intros out1 out2 H1 H2. split; [now apply Huniq|].
  apply Huniq; [exact H1|apply split_run_computes].
Qed.

Lemma splitter_deterministic_witness :
  split_run scenario_lines (split_flush (of_string " INSERT INTO t VALUES (2)",
     [of_string "CREATE TABLE t (id INT);"; of_string "INSERT INTO t VALUES (1);"])) /\
  split_flush (of_string " INSERT INTO t VALUES (2)",
     [of_string "CREATE TABLE t (id INT);"; of_string "INSERT INTO t VALUES (1);"]) =
  split_statements scenario_lines.
Proof.
  assert (R : split_run scenario_lines
                (split_flush (of_string " INSERT INTO t VALUES (2)",
                   [of_string "CREATE TABLE t (id INT);";
                    of_string "INSERT INTO t VALUES (1);"]))).
  { constructor. unfold scenario_lines. simpl List.map.
    eapply star_step; [apply trans_emit; reflexivity|].
    eapply star_step; [apply trans_skip; reflexivity|].
    eapply star_step; [apply trans_emit; reflexivity|].
    eapply star_step; [apply trans_accumulate; reflexivity|].
    apply star_refl. }
  split; [exact R|].
  apply (proj2 (splitter_deterministic scenario_lines) _ _ R R).
Defined.

(** C10: the statements are the kept lines cut into consecutive non-empty
    runs, each run joined by single spaces: the runs put end to end are the
    kept lines, so that no kept line is lost, repeated or moved. *)
Theorem statements_partition_kept_lines (lines : list str) :
  let rs := runs (kept_lines lines) in
  List.concat rs = kept_lines lines /\
  Forall (fun r => r <> []) rs /\
  split_statements lines = List.map (join SPACE) rs.
Proof.
  intros rs. unfold rs, runs. split; [|split].
  - now rewrite runs_from_concat.
  - apply runs_from_nonempty.
  - apply split_statements_runs.
Qed.

(** ** The runner: one attempt per statement *)

Unset Implicit Arguments.

Lemma attempted_app (t1 t2 : list event) :
  attempted (t1 ++ t2) = attempted t1 ++ attempted t2.
Proof.
  induction t1 as [|e t IH]; [reflexivity|].
  destruct e as [[] ?|?]; simpl; now rewrite IH.
Qed.

Lemma recorded_app (t1 t2 : list event) :
  recorded (t1 ++ t2) = recorded t1 ++ recorded t2.
Proof.
  induction t1 as [|e t IH]; [reflexivity|].
  destruct e as [? ?|[]]; simpl; now rewrite IH.
Qed.

Section RunnerLoop.

Variable D : Type.
Variable drv : driver D.

(** One turn of the loop on a non-empty statement: the statement is
    submitted, and the outcome the driver assigns is the one reported. *)
Lemma run_statement_assigned (i : nat) (statement : str) (d d' : D) (o : outcome) :
  statement <> [] ->
  assigned_outcome drv statement d = (Some o, d') ->
  exists t,
    run_statement drv i statement d = (Ok tt, d', t) /\
    attempted t = [statement] /\ recorded t = [o].
Proof.
  intros Hne Hassigned.
  unfold run_statement. rewrite (truthy_nonempty Hne).
  unfold assigned_outcome in Hassigned.
  unfold try_except, bind, call, print. cbn [negb]. cbv beta iota.
  destruct (execute drv statement d) as [[[]|e] d1].
  - destruct (commit drv d1) as [[[]|e] d2].
    + inversion Hassigned; subst. eexists. split; [reflexivity|]. now split.
    + destruct e; inversion Hassigned; subst.
      eexists. split; [reflexivity|]. now split.
  - destruct e; inversion Hassigned; subst.
    eexists. split; [reflexivity|]. now split.
Qed.

Lemma run_statements_assigned (stmts : list str) :
  forall (i : nat) (d : D) (outs : list outcome),
    Forall (fun statement => statement <> []) stmts ->
    assigned_outcomes drv stmts d = List.map Some outs ->
    outcome_of (run_statements drv i stmts) d = Ok tt /\
    attempted (trace_of (run_statements drv i stmts) d) = stmts /\
    recorded (trace_of (run_statements drv i stmts) d) = outs.
Proof.
  induction stmts as [|s rest IH]; intros i d outs Hne Hassigned.
  - destruct outs; [|discriminate]. now repeat split.
  - inversion Hne as [|? ? Hs Hrest]; subst.
    simpl in Hassigned.
    destruct (assigned_outcome drv s d) as [o d1] eqn:Ho.
    destruct outs as [|o1 outs']; [discriminate|].
    simpl in Hassigned. inversion Hassigned; subst.
    destruct (run_statement_assigned i s d d1 o1 Hs Ho) as (t & Hrun & Hatt & Hrec).
    destruct (IH (S i) d1 outs' Hrest ltac:(assumption)) as (Hok & Hatt' & Hrec').
    unfold outcome_of, trace_of in *. simpl run_statements. unfold bind.
    rewrite Hrun.
    destruct (run_statements drv (S i) rest d1) as [[r d2] t2].
    simpl in *. rewrite attempted_app, recorded_app, Hatt, Hrec, Hatt', Hrec'.
    now repeat split.
Qed.

End RunnerLoop.

(** C8: whatever outcomes the driver assigns to the statements, success
    or failure, the loop submits every statement, in order, and reports
    exactly those outcomes, one per statement; so it does for the
    statements of any script; and when the second of three statements
    fails, the outcomes are success, failure, success, all three
    statements having been submitted. *)
Theorem every_statement_attempted (D : Type) (drv : driver D) :
  (forall (stmts : list str) (outs : list outcome) (i : nat) (d : D),
      Forall (fun statement => statement <> []) stmts ->
      assigned_outcomes drv stmts d = List.map Some outs ->
      outcome_of (run_statements drv i stmts) d = Ok tt /\
      attempted (trace_of (run_statements drv i stmts) d) = stmts /\
      recorded (trace_of (run_statements drv i stmts) d) = outs /\
      List.length outs = List.length stmts) /\
  (forall (lines : list str) (outs : list outcome) (d : D),
      assigned_outcomes drv (split_statements lines) d = List.map Some outs ->
      attempted (trace_of (run_statements drv 0 (split_statements lines)) d) =
        split_statements lines /\
      recorded (trace_of (run_statements drv 0 (split_statements lines)) d) = outs) /\
  (forall (s1 s2 s3 err : str) (i : nat) (d : D),
      s1 <> [] -> s2 <> [] -> s3 <> [] ->
      assigned_outcomes drv [s1; s2; s3] d =
        [Some Success; Some (Failure err); Some Success] ->
      attempted (trace_of (run_statements drv i [s1; s2; s3]) d) = [s1; s2; s3] /\
      recorded (trace_of (run_statements drv i [s1; s2; s3]) d) =
        [Success; Failure err; Success]).
Proof.
  split; [|split].
  - intros stmts outs i d Hne Hassigned.
    destruct (run_statements_assigned D drv stmts i d outs Hne Hassigned) as (H1 & H2 & H3).
    repeat split; try assumption.
    apply (f_equal (@List.length _)) in Hassigned.
    rewrite length_map in Hassigned. rewrite <- Hassigned.
    clear. revert d. induction stmts as [|s rest IH]; intros d; [reflexivity|].
    simpl. destruct (assigned_outcome drv s d) as [o d1]. simpl. now rewrite IH.
  - intros lines outs d Hassigned.
    assert (Hne : Forall (fun s => s <> []) (split_statements lines)).
    { eapply Forall_impl; [|apply split_statements_clean]. now intros s [Hs _]. }
    destruct (run_statements_assigned D drv _ 0 d outs Hne Hassigned) as (_ & H2 & H3).
    now split.
  - intros s1 s2 s3 err i d H1 H2 H3 Hassigned.
    assert (Hne : Forall (fun s => s <> []) [s1; s2; s3]) by now repeat constructor.
    destruct (run_statements_assigned D drv _ i d [Success; Failure err; Success]
                Hne Hassigned) as (_ & Ha & Hr).
    now split.
Qed.

Lemma every_statement_attempted_witness :
  attempted (trace_of (run_statements (counting_driver 1) 0
                         (split_statements scenario_lines)) 0) =
    split_statements scenario_lines /\
  recorded (trace_of (run_statements (counting_driver 1) 0
                        (split_statements scenario_lines)) 0) =
    [Success; Failure (of_string "1064"); Success] /\
  recorded (trace_of (run_statements (counting_driver 1) 0
                        [of_string "a"; of_string "b"; of_string "c"]) 0) =
    [Success; Failure (of_string "1064"); Success].
Proof.
  destruct (every_statement_attempted nat (counting_driver 1))
    as (Hall & Hsplit & Hthree).
  split; [|split].
  - apply (Hall (split_statements scenario_lines)
             [Success; Failure (of_string "1064"); Success] 0 0).
    + repeat constructor; discriminate.
    + reflexivity.
  - apply (Hsplit scenario_lines
             [Success; Failure (of_string "1064"); Success] 0).
    reflexivity.
  - apply (Hthree (of_string "a") (of_string "b") (of_string "c")
             (of_string "1064") 0 0); try discriminate.
    reflexivity.
Defined.

(** ** The runner: the connection is closed once *)

Lemma closes_app (t1 t2 : list event) :
  closes (t1 ++ t2) = closes t1 + closes t2.
Proof.
  induction t1 as [|e t IH]; [reflexivity|].
  destruct e as [[] ?|?]; simpl; now rewrite IH.
Qed.

Section Quiet.

Variable D : Type.
Variable drv : driver D.

Lemma quiet_ret (A : Type) (a : A) : quiet (@ret D A a).
Proof. intros d. reflexivity. Qed.

Lemma quiet_raise (A : Type) (e : exn) : quiet (@raise D A e).
Proof. intros d. reflexivity. Qed.

Lemma quiet_print (m : message) : quiet (@print D m).
Proof. intros d. reflexivity. Qed.

Lemma quiet_call (A : Type) (op : operation) (f : D -> result A * D) :
  op <> OpClose -> quiet (call op f).
Proof.
  intros Hop d. unfold trace_of, call. destruct (f d) as [r d1]. simpl.
  destruct op; try reflexivity. congruence.
Qed.

Lemma quiet_bind (A B : Type) (m : M D A) (k : A -> M D B) :
  quiet m -> (forall a, quiet (k a)) -> quiet (bind m k).
Proof.
  intros Hm Hk d. specialize (Hm d). unfold trace_of, bind in *.
  destruct (m d) as [[[a|e] d1] t1]; simpl in *; [|exact Hm].
  specialize (Hk a d1). unfold trace_of in Hk.
  destruct (k a d1) as [[r d2] t2]. simpl in *.
  rewrite closes_app. lia.
Qed.

Lemma quiet_try_except (A : Type) (body : M D A) (handler : exn -> option (M D A)) :
  quiet body ->
  (forall e h, handler e = Some h -> quiet h) ->
  quiet (try_except body handler).
Proof.
  intros Hbody Hhandler d. specialize (Hbody d). unfold trace_of, try_except in *.
  destruct (body d) as [[[a|e] d1] t1]; simpl in *; [exact Hbody|].
  destruct (handler e) as [h|] eqn:Eh; [|exact Hbody].
  specialize (Hhandler e h Eh d1). unfold trace_of in Hhandler.
  destruct (h d1) as [[r d2] t2]. simpl in *.
  rewrite closes_app. lia.
Qed.

Ltac quiet_step :=
  first
    [ apply quiet_ret
    | apply quiet_raise
    | apply quiet_print
    | apply quiet_call; discriminate
    | apply quiet_bind; [|intros ?]
    | apply quiet_try_except;
        [|let e := fresh "e" in let h := fresh "h" in let E := fresh "E" in
          intros e h E; destruct e; inversion E; subst; clear E] ].

Ltac quiet_auto := repeat quiet_step.

Lemma quiet_index (row : list str) (i : nat) : quiet (@index D row i).
Proof. unfold index. destruct (nth_error row i); quiet_auto. Qed.

Lemma quiet_fetchone_0 : quiet (fetchone_0 drv).
Proof.
  unfold fetchone_0. quiet_auto.
  match goal with a : option (list str) |- _ => destruct a end;
    [apply quiet_index|quiet_auto].
Qed.

Lemma quiet_run_statement (i : nat) (statement : str) :
  quiet (run_statement drv i statement).
Proof.
  unfold run_statement. destruct (negb (truthy statement)); quiet_auto.
Qed.

Lemma quiet_run_statements (stmts : list str) :
  forall i, quiet (run_statements drv i stmts).
Proof.
  induction stmts as [|s rest IH]; intros i; simpl; [apply quiet_ret|].
  apply quiet_bind; [apply quiet_run_statement|intros _; apply IH].
Qed.

Lemma quiet_print_users (users : list (list str)) : quiet (@print_users D users).
Proof.
  induction users as [|user rest IH]; simpl; [apply quiet_ret|].
  repeat (apply quiet_bind; [apply quiet_index || apply quiet_print|intros ?]).
  exact IH.
Qed.

Lemma quiet_execute_sql_file : quiet (execute_sql_file drv).
Proof.
  unfold execute_sql_file.
  apply quiet_try_except.
  - apply quiet_bind; [quiet_auto|intros _].
    apply quiet_bind; [quiet_auto|intros lines].
    apply quiet_bind; [apply quiet_run_statements|intros _].
    quiet_auto.
  - intros e h E. destruct e; inversion E; subst; quiet_auto.
Qed.

Lemma quiet_verify_data : quiet (verify_data drv).
Proof.
  unfold verify_data, sql.
  apply quiet_try_except.
  - repeat (apply quiet_bind;
            [first [apply quiet_fetchone_0 | apply quiet_print_users
                   | apply quiet_print | apply quiet_call; discriminate]
            |intros ?]).
    apply quiet_call; discriminate.
  - intros e h E. destruct e; inversion E; subst; quiet_auto.
Qed.

(** The body of the [try] of lines 133-139. *)
Lemma quiet_import_and_verify :
  quiet (bind (execute_sql_file drv)
           (fun imported : bool =>
              if imported
              then bind (@print D MsgVerifying) (fun _ => verify_data drv)
              else @print D MsgImportFailed)).
Proof.
  apply quiet_bind; [apply quiet_execute_sql_file|].
  intros [|]; [|apply quiet_print].
  apply quiet_bind; [apply quiet_print|intros _; apply quiet_verify_data].
Qed.

End Quiet.

(** C9: once [mysql.connector.connect] has returned a connection, the run
    calls [connection.close()] exactly once, whatever the driver does
    afterwards (statements failing, exceptions escaping the import or the
    verification): the call is the last one of the run, followed at most
    by the closing message. *)
Theorem connection_closed_exactly_once (D : Type) (drv : driver D) (d : D) :
  established (trace_of (main drv) d) = true ->
  closes (trace_of (main drv) d) = 1 /\
  exists before exc after,
    trace_of (main drv) d = before ++ Call OpClose exc :: after /\
    closes before = 0 /\
    (after = [] \/ after = [Print MsgClosed]).
Proof.
  unfold trace_of, main, connect_to_mysql.
  pose proof (quiet_import_and_verify D drv) as Hq.
  set (body := bind (execute_sql_file drv) _) in *.
  clearbody body.
  unfold bind, try_finally, try_except, call, print, ret, raise.
  cbv beta.
  destruct (path_exists drv d) as [[|] d1]; simpl; [|discriminate].
  destruct (connect drv d1) as [[[]|e] d2]; simpl.
  - intros _. specialize (Hq d2). unfold trace_of in Hq.
    destruct (body d2) as [[rb d3] tb]. simpl in Hq.
    destruct (close drv d3) as [[[]|ec] d4]; simpl.
    + split.
      * rewrite closes_app, Hq. reflexivity.
      * exists ([Print MsgStart; Call OpExists None; Call OpConnect None] ++ tb),
          None, [Print MsgClosed].
        split; [now rewrite <- app_assoc|].
        split; [rewrite closes_app, Hq; reflexivity|now right].
    + split.
      * rewrite closes_app, Hq. reflexivity.
      * exists ([Print MsgStart; Call OpExists None; Call OpConnect None] ++ tb),
          (Some ec), [].
        split; [now rewrite <- app_assoc|].
        split; [rewrite closes_app, Hq; reflexivity|now left].
  - destruct e; simpl; discriminate.
Qed.

Lemma connection_closed_exactly_once_witness :
  outcome_of (main (counting_driver 1)) 0 =
    Raise (OtherException (of_string "'NoneType' object is not subscriptable")) /\
  recorded (trace_of (main (counting_driver 1)) 0) =
    [Success; Failure (of_string "1064"); Success] /\
  closes (trace_of (main (counting_driver 1)) 0) = 1.
Proof.
  split; [reflexivity|]. split; [reflexivity|].
  apply (connection_closed_exactly_once nat (counting_driver 1) 0).
  reflexivity.
Defined.

(** * Further properties of the splitter *)

(** ** Scripts put end to end *)

Lemma runs_from_cons (run : list str) (k : str) (rest : list str) :
  runs_from run (k :: rest) =
  if endswith k SEMI then (run ++ [k]) :: runs_from [] rest
  else runs_from (run ++ [k]) rest.
Proof. reflexivity. Qed.

Lemma runs_from_app (k1 : list str) :
  forall (run k2 : list str),
    k1 <> [] -> endswith (last k1 []) SEMI = true ->
    runs_from run (k1 ++ k2) = runs_from run k1 ++ runs_from [] k2.
Proof.
  induction k1 as [|k rest IH]; intros run k2 Hne Hlast; [congruence|].
  destruct rest as [|k' r].
  - simpl in *. now rewrite Hlast.
  - change ((k :: k' :: r) ++ k2) with (k :: ((k' :: r) ++ k2)).
    change (last (k :: k' :: r) []) with (last (k' :: r) []) in Hlast.
    rewrite !runs_from_cons.
    destruct (endswith k SEMI).
    + rewrite IH by (assumption || discriminate). reflexivity.
    + apply IH; [discriminate|assumption].
Qed.

(** X1: when the first of two scripts ends a statement with its last kept
    line, or has no kept line, splitting the two put end to end gives the
    statements of the first followed by those of the second. *)
Theorem split_statements_app (l1 l2 : list str) :
  kept_lines l1 = [] \/ endswith (last (kept_lines l1) []) SEMI = true ->
  split_statements (l1 ++ l2) = split_statements l1 ++ split_statements l2.
Proof.
  intros H. rewrite !split_statements_runs, kept_lines_app. unfold runs.
  destruct H as [H|H].
  - rewrite H. reflexivity.
  - rewrite runs_from_app, map_app; [reflexivity| |exact H].
    intros E. rewrite E in H. discriminate.
Qed.

Lemma split_statements_app_witness :
  split_statements
    ([of_string "USE db;"; of_string "-- next"] ++
     [of_string "SELECT 1"; of_string "FROM t"]) =
  [of_string "USE db;"] ++ [of_string "SELECT 1 FROM t"].
Proof.
  apply (split_statements_app
           [of_string "USE db;"; of_string "-- next"]
           [of_string "SELECT 1"; of_string "FROM t"]).
  right. reflexivity.
Defined.

(** ** How many statements *)

Lemma runs_from_length (kept : list str) :
  forall run,
    List.length (runs_from run kept) =
    List.length (filter (fun k => endswith k SEMI) kept) +
    match (if existsb (fun k => endswith k SEMI) kept
           then trailing_run kept else run ++ kept) with
    | [] => 0
    | _ :: _ => 1
    end.
Proof.
  induction kept as [|k rest IH]; intros run.
  - simpl. rewrite app_nil_r. now destruct run.
  - destruct (endswith k SEMI) eqn:Ek.
    + assert (Hex : existsb (fun k => endswith k SEMI) (k :: rest) = true)
        by (simpl; now rewrite Ek).
      rewrite Hex, (trailing_run_cons _ _ Hex).
      simpl. rewrite Ek. simpl. rewrite IH. f_equal. f_equal.
      destruct (existsb _ rest) eqn:Er; [reflexivity|].
      now rewrite (trailing_run_all _ Er).
    + assert (Hex : existsb (fun k => endswith k SEMI) (k :: rest) =
                    existsb (fun k => endswith k SEMI) rest)
        by (simpl; now rewrite Ek).
      simpl runs_from. simpl filter. rewrite Ek, IH, Hex.
      destruct (existsb _ rest) eqn:Er.
      * rewrite trailing_run_cons; [reflexivity|now rewrite Hex].
      * now rewrite <- app_assoc.
Qed.

(** X3: the number of statements is the number of kept lines that end in
    a semicolon, plus one when kept lines follow the last of them. *)
Theorem split_statements_count (lines : list str) :
  List.length (split_statements lines) =
  List.length (filter (fun k => endswith k SEMI) (kept_lines lines)) +
  match trailing_run (kept_lines lines) with
  | [] => 0
  | _ :: _ => 1
  end.
Proof.
  rewrite split_statements_runs, length_map. unfold runs.
  rewrite runs_from_length. f_equal.
  destruct (existsb _ (kept_lines lines)) eqn:E; [reflexivity|].
  simpl. now rewrite (trailing_run_all _ E).
Qed.

(** ** The shape of the statements *)

Lemma runs_from_Forall (P : str -> Prop) (kept : list str) :
  forall run, Forall P run -> Forall P kept ->
    Forall (Forall P) (runs_from run kept).
Proof.
  induction kept as [|k rest IH]; intros run Hrun Hkept.
  - simpl. destruct run; constructor; [assumption|constructor].
  - inversion Hkept as [|? ? Hk Hrest]; subst.
    assert (Forall P (run ++ [k])).
    { apply Forall_app. split; [assumption|now constructor]. }
    rewrite runs_from_cons. destruct (endswith k SEMI).
    + constructor; [assumption|]. apply IH; [constructor|assumption].
    + now apply IH.
Qed.

Lemma kept_lines_not_skipped (lines : list str) :
  Forall (fun k => is_skipped k = false) (kept_lines lines).
Proof.
  induction lines as [|raw rest IH]; [constructor|].
  rewrite kept_lines_cons. destruct (is_skipped (strip raw)) eqn:E;
    [exact IH|now constructor].
Qed.

Lemma startswith_nil (s : str) : startswith s [] = true.
Proof. now destruct s. Qed.

Lemma startswith_app_single (a b : str) (c : char) :
  a <> [] -> startswith (a ++ b) [c] = startswith a [c].
Proof.
  destruct a as [|x a]; [congruence|]. intros _. simpl.
  now rewrite !startswith_nil.
Qed.

Lemma join_not_skipped (run : list str) :
  run <> [] ->
  Forall (fun k => is_skipped k = false) run ->
  is_skipped (join SPACE run) = false.
Proof.
  intros Hne Hall. destruct run as [|l rest]; [congruence|].
  inversion Hall as [|? ? Hl _]; subst.
  destruct rest as [|l2 r]; [exact Hl|].
  change (join SPACE (l :: l2 :: r)) with (l ++ SPACE ++ join SPACE (l2 :: r)).
  set (J := join SPACE (l2 :: r)).
  unfold is_skipped in *.
  destruct l as [|c l']; [discriminate Hl|].
  simpl in Hl |- *.
  destruct l' as [|c' l'']; simpl in Hl |- *.
  - rewrite !andb_false_r, orb_false_r in *. exact Hl.
  - rewrite startswith_nil in *. exact Hl.
Qed.

Lemma join_endswith (run : list str) :
  Forall clean run -> run <> [] ->
  endswith (join SPACE run) SEMI = endswith (last run []) SEMI.
Proof.
  induction run as [|l rest IH]; [congruence|]. intros Hall _.
  inversion Hall as [|? ? Hl Hrest]; subst.
  destruct rest as [|l2 r]; [reflexivity|].
  change (join SPACE (l :: l2 :: r)) with (l ++ SPACE ++ join SPACE (l2 :: r)).
  change (last (l :: l2 :: r) []) with (last (l2 :: r) []).
  rewrite <- IH by (assumption || discriminate).
  destruct (@join_clean (l2 :: r) Hrest ltac:(discriminate)) as (Hne & _).
  unfold endswith. rewrite !rev_app_distr, <- app_assoc.
  apply startswith_app_single.
  intros E. apply Hne. apply (f_equal (@rev char)) in E.
  now rewrite rev_involutive in E.
Qed.

Lemma runs_from_terminators (kept : list str) :
  forall run,
    Forall (fun r => endswith (last r []) SEMI = true)
           (removelast (runs_from run kept)).
Proof.
  induction kept as [|k rest IH]; intros run.
  - simpl. destruct run; constructor.
  - rewrite runs_from_cons. destruct (endswith k SEMI) eqn:Ek; [|apply IH].
    specialize (IH []).
    destruct (runs_from [] rest) as [|r rs] eqn:Er; [constructor|].
    change (removelast ((run ++ [k]) :: r :: rs))
      with ((run ++ [k]) :: removelast (r :: rs)).
    constructor; [|exact IH]. now rewrite last_last.
Qed.

Lemma removelast_map (A B : Type) (f : A -> B) (l : list A) :
  removelast (List.map f l) = List.map f (removelast l).
Proof.
  induction l as [|a [|b r] IH]; [reflexivity|reflexivity|].
  change (removelast (List.map f (a :: b :: r)))
    with (f a :: removelast (List.map f (b :: r))).
  now rewrite IH.
Qed.

Lemma split_statements_terminators (lines : list str) :
  Forall (fun statement => endswith statement SEMI = true)
         (removelast (split_statements lines)).
Proof.
  rewrite split_statements_runs, removelast_map. unfold runs.
  pose proof (runs_from_terminators (kept_lines lines) []) as Hterm.
  pose proof (runs_from_nonempty (kept_lines lines) []) as Hne.
  pose proof (@runs_from_clean (kept_lines lines) [] (Forall_nil _)
                (kept_lines_clean lines)) as Hclean.
  assert (Hsub : forall r, In r (removelast (runs_from [] (kept_lines lines))) ->
                           In r (runs_from [] (kept_lines lines))).
  { intros r Hr. destruct (runs_from [] (kept_lines lines)) as [|x xs] eqn:E;
      [contradiction|].
    rewrite (@app_removelast_last _ (x :: xs) [] ltac:(discriminate)).
    apply in_or_app. now left. }
  apply Forall_forall. intros s Hs. apply in_map_iff in Hs as (r & <- & Hr).
  rewrite Forall_forall in Hterm, Hne, Hclean.
  rewrite join_endswith; [now apply Hterm|now apply Hclean, Hsub|now apply Hne, Hsub].
Qed.

Lemma split_statements_not_skipped (lines : list str) :
  Forall (fun statement => is_skipped statement = false)
         (split_statements lines).
Proof.
  rewrite split_statements_runs. unfold runs.
  pose proof (runs_from_nonempty (kept_lines lines) []) as Hne.
  pose proof (@runs_from_Forall (fun k => is_skipped k = false)
                (kept_lines lines) [] (Forall_nil _)
                (kept_lines_not_skipped lines)) as Hkept.
  induction (runs_from [] (kept_lines lines)) as [|r rs IH]; [constructor|].
  inversion Hne; subst. inversion Hkept; subst.
  simpl. constructor; [now apply join_not_skipped|now apply IH].
Qed.

(** X4: every statement but the last ends in a semicolon. *)
Theorem all_but_last_terminated (lines : list str) :
  Forall (fun statement => endswith statement SEMI = true)
         (removelast (split_statements lines)).
Proof. apply split_statements_terminators. Qed.

(** X5: no statement starts with a comment marker: none begins with [#]
    or with [--]. *)
Theorem no_statement_is_a_comment (lines : list str) :
  Forall (fun statement =>
            startswith statement HASH = false /\
            startswith statement DASHES = false)
         (split_statements lines).
Proof.
  eapply Forall_impl; [|apply split_statements_not_skipped].
  intros s Hs. unfold is_skipped in Hs.
  apply orb_false_iff in Hs as [Hs Hd]. apply orb_false_iff in Hs as [_ Hh].
  now split.
Qed.

(** ** Splitting again *)

Lemma runs_from_singletons (stmts : list str) :
  Forall (fun s => endswith s SEMI = true) (removelast stmts) ->
  runs_from [] stmts = List.map (fun s => [s]) stmts.
Proof.
  induction stmts as [|s [|s' r] IH]; intros H; [reflexivity| |].
  - simpl. now destruct (endswith s SEMI).
  - change (removelast (s :: s' :: r)) with (s :: removelast (s' :: r)) in H.
    inversion H as [|? ? Hs Hrest]; subst.
    rewrite runs_from_cons, Hs. simpl app. rewrite IH by exact Hrest.
    reflexivity.
Qed.

Lemma kept_lines_fixed (stmts : list str) :
  Forall clean stmts -> Forall (fun s => is_skipped s = false) stmts ->
  kept_lines stmts = stmts.
Proof.
  induction stmts as [|s rest IH]; intros Hc Hs; [reflexivity|].
  inversion Hc as [|? ? Hc1 Hc2]; inversion Hs as [|? ? Hs1 Hs2]; subst.
  rewrite kept_lines_cons, (clean_strip Hc1), Hs1, IH by assumption.
  reflexivity.
Qed.

(** X2: the statements of a script, read as the lines of a script, are
    split into themselves. *)
Theorem split_statements_idempotent (lines : list str) :
  split_statements (split_statements lines) = split_statements lines.
Proof.
  rewrite (split_statements_runs (split_statements lines)). unfold runs.
  rewrite kept_lines_fixed;
    [|apply split_statements_clean|apply split_statements_not_skipped].
  rewrite runs_from_singletons by apply split_statements_terminators.
  rewrite map_map. simpl. apply map_id.
Qed.

(** ** White space around the lines *)

Lemma lstrip_all_space (w : str) : forallb isspace w = true -> lstrip w = [].
Proof.
  induction w as [|c w IH]; [reflexivity|]. simpl. intros H.
  apply andb_prop in H as [Hc Hw]. rewrite Hc. now apply IH.
Qed.

Lemma forallb_rev (A : Type) (f : A -> bool) (l : list A) :
  forallb f l = true -> forallb f (rev l) = true.
Proof.
  rewrite !forallb_forall. intros H x Hx. apply H. now apply in_rev.
Qed.

Lemma strip_pad_left (w a : str) :
  forallb isspace w = true -> strip (w ++ a) = strip a.
Proof.
  intros Hw. unfold strip. now rewrite lstrip_app, (lstrip_all_space w Hw).
Qed.

Lemma strip_pad_right (a w : str) :
  forallb isspace w = true -> strip (a ++ w) = strip a.
Proof.
  intros Hw. unfold strip. rewrite lstrip_app.
  destruct (lstrip a) as [|c t] eqn:Ea.
  - now rewrite (lstrip_all_space w Hw).
  - unfold rstrip. rewrite rev_app_distr, lstrip_app.
    now rewrite (lstrip_all_space (rev w) (forallb_rev _ isspace w Hw)).
Qed.

Lemma strip_padded (a b : str) : padded a b -> strip b = strip a.
Proof.
  intros (w1 & w2 & H1 & H2 & ->).
  now rewrite strip_pad_left, strip_pad_right.
Qed.

(** X6: white space at the ends of the lines does not count: two scripts
    whose lines differ only by indentation, trailing blanks or the newline
    kept by [readlines] are split into the same statements. *)
Theorem padding_is_irrelevant (l1 l2 : list str) :
  Forall2 padded l1 l2 -> split_statements l2 = split_statements l1.
Proof.
  intros H. rewrite !split_statements_runs. f_equal. unfold kept_lines.
  f_equal. induction H as [|a b r1 r2 Hab _ IH]; [reflexivity|].
  simpl. now rewrite IH, (strip_padded a b Hab).
Qed.

Lemma padding_is_irrelevant_witness :
  split_statements
    [[0x09%N] ++ of_string "SELECT 1" ++ [0x0A%N];
     [] ++ of_string "FROM t;" ++ [0x0D%N; 0x0A%N]] =
  split_statements [of_string "SELECT 1"; of_string "FROM t;"].
Proof.
  apply (padding_is_irrelevant
           [of_string "SELECT 1"; of_string "FROM t;"]
           [[0x09%N] ++ of_string "SELECT 1" ++ [0x0A%N];
            [] ++ of_string "FROM t;" ++ [0x0D%N; 0x0A%N]]).
  constructor.
  - exists [0x09%N], [0x0A%N]. repeat split; reflexivity.
  - constructor; [|constructor].
    exists [], [0x0D%N; 0x0A%N]. repeat split; reflexivity.
Defined.

(** * Further properties of the runner *)

(** ** Traces put end to end *)

Lemma calls_app (t1 t2 : list event) : calls (t1 ++ t2) = calls t1 ++ calls t2.
Proof.
  induction t1 as [|e t IH]; [reflexivity|].
  destruct e; simpl; now rewrite IH.
Qed.

Lemma commits_app (t1 t2 : list event) :
  commits (t1 ++ t2) = commits t1 + commits t2.
Proof.
  induction t1 as [|e t IH]; [reflexivity|].
  destruct e as [[] ?|?]; simpl; now rewrite IH.
Qed.

Lemma executed_app (t1 t2 : list event) :
  executed (t1 ++ t2) = executed t1 + executed t2.
Proof.
  induction t1 as [|e t IH]; [reflexivity|].
  destruct e as [[] [?|]|?]; simpl; now rewrite IH.
Qed.

(** What a trace shows only depends on its calls. *)
Lemma attempted_calls (t : list event) :
  forallb (fun op => negb (statement_call op)) (calls t) = true ->
  attempted t = [] /\ commits t = 0 /\ executed t = 0.
Proof.
  induction t as [|e t IH]; [now repeat split|].
  destruct e as [op exc|m]; simpl; [|exact IH].
  intros H. apply andb_prop in H as [Hop Ht].
  destruct (IH Ht) as (H1 & H2 & H3).
  destruct op; try discriminate Hop; destruct exc; now repeat split.
Qed.

Lemma closes_calls (t : list event) :
  closes t = List.length (filter (fun op => match op with OpClose => true | _ => false end) (calls t)).
Proof.
  induction t as [|e t IH]; [reflexivity|].
  destruct e as [[] ?|?]; simpl; now rewrite IH.
Qed.

(** ** Which operations a computation calls *)

Section OnlyCalls.

Variable D : Type.
Variable drv : driver D.
Variable allowed : operation -> bool.

Lemma only_calls_ret (A : Type) (a : A) : only_calls allowed (@ret D A a).
Proof. intros d. reflexivity. Qed.

Lemma only_calls_raise (A : Type) (e : exn) : only_calls allowed (@raise D A e).
Proof. intros d. reflexivity. Qed.

Lemma only_calls_print (m : message) : only_calls allowed (@print D m).
Proof. intros d. reflexivity. Qed.

Lemma only_calls_call (A : Type) (op : operation) (f : D -> result A * D) :
  allowed op = true -> only_calls allowed (call op f).
Proof.
  intros Hop d. unfold trace_of, call. destruct (f d) as [r d1]. simpl.
  now rewrite Hop.
Qed.

Lemma only_calls_bind (A B : Type) (m : M D A) (k : A -> M D B) :
  only_calls allowed m -> (forall a, only_calls allowed (k a)) ->
  only_calls allowed (bind m k).
Proof.
  intros Hm Hk d. specialize (Hm d). unfold trace_of, bind in *.
  destruct (m d) as [[[a|e] d1] t1]; simpl in *; [|exact Hm].
  specialize (Hk a d1). unfold trace_of in Hk.
  destruct (k a d1) as [[r d2] t2]. simpl in *.
  now rewrite calls_app, forallb_app, Hm, Hk.
Qed.

Lemma only_calls_try_except (A : Type) (body : M D A)
    (handler : exn -> option (M D A)) :
  only_calls allowed body ->
  (forall e h, handler e = Some h -> only_calls allowed h) ->
  only_calls allowed (try_except body handler).
Proof.
  intros Hbody Hhandler d. specialize (Hbody d).
  unfold trace_of, try_except in *.
  destruct (body d) as [[[a|e] d1] t1]; simpl in *; [exact Hbody|].
  destruct (handler e) as [h|] eqn:Eh; [|exact Hbody].
  specialize (Hhandler e h Eh d1). unfold trace_of in Hhandler.
  destruct (h d1) as [[r d2] t2]. simpl in *.
  now rewrite calls_app, forallb_app, Hbody, Hhandler.
Qed.

Ltac only_calls_step :=
  first
    [ apply only_calls_ret
    | apply only_calls_raise
    | apply only_calls_print
    | apply only_calls_call; reflexivity
    | apply only_calls_bind; [|intros ?]
    | apply only_calls_try_except;
        [|let e := fresh "e" in let h := fresh "h" in let E := fresh "E" in
          intros e h E; destruct e; inversion E; subst; clear E] ].

Ltac only_calls_auto := repeat only_calls_step.

Lemma only_calls_index (row : list str) (i : nat) :
  only_calls allowed (@index D row i).
Proof. unfold index. destruct (nth_error row i); only_calls_auto. Qed.

Lemma only_calls_print_users (users : list (list str)) :
  only_calls allowed (@print_users D users).
Proof.
  induction users as [|user rest IH]; simpl; [apply only_calls_ret|].
  repeat (apply only_calls_bind;
          [apply only_calls_index || apply only_calls_print|intros ?]).
  exact IH.
Qed.

Lemma only_calls_run_statement (i : nat) (statement : str) :
  (forall op, statement_call op = true -> allowed op = true) ->
  only_calls allowed (run_statement drv i statement).
Proof.
  intros Hsub. unfold run_statement.
  destruct (negb (truthy statement)); [apply only_calls_ret|].
  apply only_calls_try_except.
  - apply only_calls_bind; [apply only_calls_print|intros _].
    apply only_calls_bind; [apply only_calls_call; now apply Hsub|intros _].
    apply only_calls_bind; [apply only_calls_call; now apply Hsub|intros _].
    apply only_calls_print.
  - intros e h E. destruct e; inversion E; subst. only_calls_auto.
Qed.

Lemma only_calls_run_statements (stmts : list str) :
  (forall op, statement_call op = true -> allowed op = true) ->
  forall i, only_calls allowed (run_statements drv i stmts).
Proof.
  intros Hsub. induction stmts as [|s rest IH]; intros i; simpl;
    [apply only_calls_ret|].
  apply only_calls_bind;
    [now apply only_calls_run_statement|intros _; apply IH].
Qed.

End OnlyCalls.

(** ** The loop over the statements, whatever the driver does *)

Section LoopAnyDriver.

Variable D : Type.
Variable drv : driver D.

Lemma run_statement_facts (i : nat) (statement : str) (d : D) :
  commits (trace_of (run_statement drv i statement) d) =
    executed (trace_of (run_statement drv i statement) d) /\
  attempted (trace_of (run_statement drv i statement) d) =
    (if truthy statement then [statement] else []) /\
  (forall msg, outcome_of (run_statement drv i statement) d <> Raise (MySQLError msg)).
Proof.
  unfold trace_of, outcome_of, run_statement.
  destruct (truthy statement); [|now repeat split].
  unfold try_except, bind, call, print. cbn [negb]. cbv beta iota.
  destruct (execute drv statement d) as [[[]|[]] d1];
    [destruct (commit drv d1) as [[[]|[]] d2]|..];
    simpl; repeat split; intros; discriminate.
Qed.

Lemma run_statements_cons (i : nat) (s : str) (rest : list str) (d : D) :
  run_statements drv i (s :: rest) d =
  match run_statement drv i s d with
  | (Ok _, d1, t1) =>
      match run_statements drv (S i) rest d1 with
      | (r, d2, t2) => (r, d2, t1 ++ t2)
      end
  | (Raise e, d1, t1) => (Raise e, d1, t1)
  end.
Proof. reflexivity. Qed.

Lemma run_statements_facts (stmts : list str) :
  forall (i : nat) (d : D),
    commits (trace_of (run_statements drv i stmts) d) =
      executed (trace_of (run_statements drv i stmts) d) /\
    (exists n, attempted (trace_of (run_statements drv i stmts) d) =
               firstn n (filter truthy stmts)) /\
    (outcome_of (run_statements drv i stmts) d = Ok tt ->
     attempted (trace_of (run_statements drv i stmts) d) = filter truthy stmts) /\
    (forall msg, outcome_of (run_statements drv i stmts) d <> Raise (MySQLError msg)).
Proof.
  induction stmts as [|s rest IH]; intros i d.
  - repeat split; try discriminate. now exists 0.
  - destruct (run_statement_facts i s d) as (Hc & Ha & Hr).
    unfold trace_of, outcome_of in *. rewrite run_statements_cons.
    destruct (run_statement drv i s d) as [[[[]|e] d1] t1]; simpl in Hc, Ha, Hr.
    + destruct (IH (S i) d1) as (Hc' & [n Ha'] & Hok' & Hr').
      unfold trace_of, outcome_of in *.
      destruct (run_statements drv (S i) rest d1) as [[r d2] t2].
      simpl in *. rewrite commits_app, executed_app, attempted_app, Ha.
      repeat split.
      * lia.
      * destruct (truthy s).
        -- exists (S n). simpl. now rewrite Ha'.
        -- exists n. exact Ha'.
      * intros Hr2. rewrite (Hok' Hr2). now destruct (truthy s).
      * exact Hr'.
    + simpl. repeat split.
      * exact Hc.
      * rewrite Ha. destruct (truthy s); [now exists 1|now exists 0].
      * discriminate.
      * exact Hr.
Qed.

End LoopAnyDriver.

(** X7: in the loop and in the whole of [execute_sql_file], whatever the
    driver does, [commit] is called once for every [execute] that returned
    and never after one that raised. *)
Theorem commit_follows_each_execute (D : Type) (drv : driver D) (d : D) :
  (forall (i : nat) (stmts : list str),
      commits (trace_of (run_statements drv i stmts) d) =
      executed (trace_of (run_statements drv i stmts) d)) /\
  commits (trace_of (execute_sql_file drv) d) =
  executed (trace_of (execute_sql_file drv) d).
Proof.
  split; [intros i stmts; apply run_statements_facts|].
  unfold trace_of, execute_sql_file, try_except, bind, call, print, ret.
  cbv beta.
  destruct (cursor drv d) as [[[]|[]] d1]; simpl; try reflexivity.
  destruct (readlines drv d1) as [[lines|[]] d2]; simpl; try reflexivity.
  destruct (run_statements_facts D drv (split_statements lines) 0 d2) as (Hc & _).
  unfold trace_of in Hc.
  destruct (run_statements drv 0 (split_statements lines) d2) as [[[[]|[]] d3] t3];
    simpl in *;
    try (destruct (cursor_close drv d3) as [[[]|[]] d4]; simpl);
    rewrite ?commits_app, ?executed_app; simpl; lia.
Qed.

(** X9: whatever the driver does, the statements submitted are the
    non-empty statements of the list, in order, up to some point: none is
    submitted twice, none out of turn, an empty one never; they are all of
    them when the loop ends normally. *)
Theorem attempted_is_a_prefix (D : Type) (drv : driver D)
    (i : nat) (stmts : list str) (d : D) :
  (exists n, attempted (trace_of (run_statements drv i stmts) d) =
             firstn n (filter truthy stmts)) /\
  (outcome_of (run_statements drv i stmts) d = Ok tt ->
   attempted (trace_of (run_statements drv i stmts) d) = filter truthy stmts).
Proof.
  destruct (run_statements_facts D drv stmts i d) as (_ & H1 & H2 & _).
  now split.
Qed.

Lemma attempted_is_a_prefix_witness :
  attempted (trace_of (run_statements (counting_driver 0) 0
                         [of_string "a"; []; of_string "b"]) 0) =
  [of_string "a"; of_string "b"].
Proof.
  apply (proj2 (attempted_is_a_prefix nat (counting_driver 0) 0
                  [of_string "a"; []; of_string "b"] 0)).
  reflexivity.
Defined.

Section LoopAbort.

Variable D : Type.
Variable drv : driver D.

Lemma run_statements_app (pre rest : list str) :
  forall (i : nat) (d : D),
    run_statements drv i (pre ++ rest) d =
    match run_statements drv i pre d with
    | (Ok _, d1, t1) =>
        match run_statements drv (i + List.length pre) rest d1 with
        | (r, d2, t2) => (r, d2, t1 ++ t2)
        end
    | (Raise e, d1, t1) => (Raise e, d1, t1)
    end.
Proof.
  induction pre as [|s pre' IH]; intros i d.
  - simpl. rewrite Nat.add_0_r.
    now destruct (run_statements drv i rest d) as [[r d2] t2].
  - change ((s :: pre') ++ rest) with (s :: (pre' ++ rest)).
    rewrite !run_statements_cons.
    destruct (run_statement drv i s d) as [[[[]|e] d1] t1]; [|reflexivity].
    rewrite IH. simpl List.length. rewrite Nat.add_succ_r. simpl.
    destruct (run_statements drv (S i) pre' d1) as [[[[]|e] d2] t2]; [|reflexivity].
    destruct (run_statements drv (S (i + List.length pre')) rest d2) as [[r d3] t3].
    now rewrite app_assoc.
Qed.

Lemma run_statement_aborts (i : nat) (statement : str) (d d' : D) :
  statement <> [] ->
  assigned_outcome drv statement d = (None, d') ->
  exists e t,
    run_statement drv i statement d = (Raise e, d', t) /\
    is_database_error e = false /\ attempted t = [statement].
Proof.
  intros Hne Hassigned.
  unfold run_statement. rewrite (truthy_nonempty Hne).
  unfold assigned_outcome in Hassigned.
  unfold try_except, bind, call, print. cbn [negb]. cbv beta iota.
  destruct (execute drv statement d) as [[[]|e] d1].
  - destruct (commit drv d1) as [[[]|e] d2]; [discriminate|].
    destruct e; inversion Hassigned; subst;
      eexists; eexists; (split; [reflexivity|now split]).
  - destruct e; inversion Hassigned; subst;
      eexists; eexists; (split; [reflexivity|now split]).
Qed.

End LoopAbort.

(** X8: when [execute] or [commit] raises something that is not a database
    error on a statement, the loop stops there: the exception leaves the
    loop and the statements after that one are never submitted. *)
Theorem unexpected_error_stops_the_loop (D : Type) (drv : driver D)
    (i : nat) (pre post : list str) (statement : str) (d d' : D) :
  outcome_of (run_statements drv i pre) d = Ok tt ->
  statement <> [] ->
  assigned_outcome drv statement (state_of (run_statements drv i pre) d) = (None, d') ->
  exists e,
    outcome_of (run_statements drv i (pre ++ statement :: post)) d = Raise e /\
    is_database_error e = false /\
    attempted (trace_of (run_statements drv i (pre ++ statement :: post)) d) =
      filter truthy pre ++ [statement].
Proof.
  intros Hpre Hne Hassigned.
  destruct (run_statements_facts D drv pre i d) as (_ & _ & Hatt & _).
  specialize (Hatt Hpre).
  unfold outcome_of, trace_of, state_of in *.
  rewrite run_statements_app.
  destruct (run_statements drv i pre d) as [[[[]|e0] d1] t1];
    simpl in Hpre, Hatt, Hassigned; [|discriminate].
  rewrite run_statements_cons.
  destruct (run_statement_aborts D drv (i + List.length pre) statement d1 d'
              Hne Hassigned) as (e & t & Hrun & He & Ht).
  rewrite Hrun. simpl. exists e.
  rewrite attempted_app, Hatt, Ht. now repeat split.
Qed.

Lemma unexpected_error_stops_the_loop_witness :
  exists e,
    outcome_of
      (run_statements (crashing_driver 1) 0
         ([of_string "a"] ++ of_string "b" :: [of_string "c"])) 0 = Raise e /\
    is_database_error e = false /\
    attempted
      (trace_of
         (run_statements (crashing_driver 1) 0
            ([of_string "a"] ++ of_string "b" :: [of_string "c"])) 0) =
    filter truthy [of_string "a"] ++ [of_string "b"].
Proof.
  apply (unexpected_error_stops_the_loop nat (crashing_driver 1) 0
           [of_string "a"] [of_string "c"] (of_string "b") 0 2).
  - reflexivity.
  - discriminate.
  - reflexivity.
Defined.

(** ** Which exceptions leave the functions *)

(** X10: no [Exception] leaves [execute_sql_file]: it returns [True] or
    [False], or lets through an exception outside [Exception]. *)
Theorem execute_sql_file_contains_exceptions (D : Type) (drv : driver D)
    (d : D) (e : exn) :
  outcome_of (execute_sql_file drv) d = Raise e -> is_exception e = false.
Proof.
  unfold outcome_of, execute_sql_file.
  set (body := bind (call OpCursor (cursor drv)) _). clearbody body.
  unfold try_except, bind, print, ret. cbv beta.
  destruct (body d) as [[[b|[]] d1] t1]; simpl; intros H;
    try discriminate; now inversion H.
Qed.

Lemma execute_sql_file_contains_exceptions_witness :
  outcome_of (execute_sql_file
                (unreadable_driver (OtherBaseException (of_string "KeyboardInterrupt")))) 0 =
    Raise (OtherBaseException (of_string "KeyboardInterrupt")) /\
  is_exception (OtherBaseException (of_string "KeyboardInterrupt")) = false.
Proof.
  split; [reflexivity|].
  apply (execute_sql_file_contains_exceptions nat
           (unreadable_driver (OtherBaseException (of_string "KeyboardInterrupt"))) 0).
  reflexivity.
Defined.

(** X11: no database error leaves [connect_to_mysql], the loop over the
    statements or [verify_data]: each of them handles it. *)
Theorem database_errors_are_handled (D : Type) (drv : driver D) (d : D)
    (msg : str) :
  outcome_of (connect_to_mysql drv) d <> Raise (MySQLError msg) /\
  (forall i stmts,
      outcome_of (run_statements drv i stmts) d <> Raise (MySQLError msg)) /\
  outcome_of (verify_data drv) d <> Raise (MySQLError msg).
Proof.
  split; [|split].
  - unfold outcome_of, connect_to_mysql, try_except, bind, call, print, ret.
    cbv beta. destruct (connect drv d) as [[[]|[]] d1]; simpl; discriminate.
  - intros i stmts. apply run_statements_facts.
  - unfold outcome_of, verify_data.
    set (body := bind (call OpCursor (cursor drv)) _). clearbody body.
    unfold try_except, print. cbv beta.
    destruct (body d) as [[[b|[]] d1] t1]; simpl; discriminate.
Qed.

(** ** What the result of execute_sql_file tells *)

Lemma filter_truthy_nonempty (stmts : list str) :
  Forall (fun s => s <> []) stmts -> filter truthy stmts = stmts.
Proof.
  induction 1 as [|s rest Hs _ IH]; [reflexivity|].
  simpl. now rewrite (truthy_nonempty Hs), IH.
Qed.

Lemma split_statements_nonempty (lines : list str) :
  Forall (fun s => s <> []) (split_statements lines).
Proof.
  eapply Forall_impl; [|apply split_statements_clean]. now intros s [Hs _].
Qed.

Lemma statement_calls_no_cursor_close (t : list event) :
  forallb statement_call (calls t) = true -> cursor_closed t = false.
Proof.
  induction t as [|e t IH]; [reflexivity|].
  destruct e as [op exc|m]; simpl; [|exact IH].
  intros H. apply andb_prop in H as [Hop Ht]. rewrite (IH Ht).
  destruct op; try discriminate Hop; reflexivity.
Qed.

Lemma cursor_closed_app (t1 t2 : list event) :
  cursor_closed (t1 ++ t2) = cursor_closed t1 || cursor_closed t2.
Proof. apply existsb_app. Qed.

Lemma last_event_snoc (t : list event) (x d0 d1 : event) :
  match t ++ [x] with
  | [] => d0
  | _ :: _ => last (t ++ [x]) d1
  end = x.
Proof.
  destruct (t ++ [x]) as [|y l] eqn:E.
  - now destruct t.
  - rewrite <- E. apply last_last.
Qed.

(** X12: when [execute_sql_file] returns [True], the script was read, every
    statement of it was submitted, in order, between the opening of the
    cursor and its closing, and the closing of the cursor was the last
    call. *)
Theorem true_means_whole_script_submitted (D : Type) (drv : driver D) (d : D) :
  outcome_of (execute_sql_file drv) d = Ok true ->
  exists lines t,
    fst (readlines drv (snd (cursor drv d))) = Ok lines /\
    trace_of (execute_sql_file drv) d =
      Call OpCursor None :: Call OpReadLines None :: t ++
      [Call OpCursorClose None; Print MsgCompleted] /\
    attempted t = split_statements lines /\
    forallb statement_call (calls t) = true.
Proof.
  unfold outcome_of, trace_of, execute_sql_file, try_except, bind, call, print, ret.
  cbv beta.
  destruct (cursor drv d) as [[[]|[]] d1]; simpl; try discriminate.
  destruct (readlines drv d1) as [[lines|[]] d2]; simpl; try discriminate.
  destruct (run_statements_facts D drv (split_statements lines) 0 d2)
    as (_ & _ & Hatt & _).
  pose proof (only_calls_run_statements D drv statement_call
                (split_statements lines) (fun op H => H) 0 d2) as Hcalls.
  unfold outcome_of, trace_of in *.
  destruct (run_statements drv 0 (split_statements lines) d2) as [[[[]|[]] d3] t3];
    simpl in *; try discriminate.
  destruct (cursor_close drv d3) as [[[]|[]] d4]; simpl; try discriminate.
  intros _. exists lines, t3. repeat split; [|exact Hcalls].
  rewrite (Hatt eq_refl).
  apply filter_truthy_nonempty, split_statements_nonempty.
Qed.

Lemma true_means_whole_script_submitted_witness :
  exists lines t,
    fst (readlines (counting_driver 1) (snd (cursor (counting_driver 1) 0))) = Ok lines /\
    trace_of (execute_sql_file (counting_driver 1)) 0 =
      Call OpCursor None :: Call OpReadLines None :: t ++
      [Call OpCursorClose None; Print MsgCompleted] /\
    attempted t = split_statements lines /\
    forallb statement_call (calls t) = true.
Proof.
  apply (true_means_whole_script_submitted nat (counting_driver 1) 0).
  reflexivity.
Defined.

(** X13: [execute_sql_file] returns [True] when the cursor is opened, the
    script read and the cursor closed, whatever database errors the
    statements meet: the failures are reported and do not change the
    result. *)
Theorem failures_do_not_change_the_result (D : Type) (drv : driver D)
    (d d1 d2 : D) (lines : list str) (outs : list outcome) :
  cursor drv d = (Ok tt, d1) ->
  readlines drv d1 = (Ok lines, d2) ->
  assigned_outcomes drv (split_statements lines) d2 = List.map Some outs ->
  fst (cursor_close drv
         (state_of (run_statements drv 0 (split_statements lines)) d2)) = Ok tt ->
  outcome_of (execute_sql_file drv) d = Ok true /\
  recorded (trace_of (execute_sql_file drv) d) = outs.
Proof.
  intros Hcursor Hread Hassigned Hclose.
  destruct (run_statements_assigned D drv (split_statements lines) 0 d2 outs
              (split_statements_nonempty lines) Hassigned) as (Hok & _ & Hrec).
  unfold outcome_of, trace_of, state_of in *.
  unfold execute_sql_file, try_except, bind, call, print, ret. cbv beta.
  rewrite Hcursor. simpl. rewrite Hread. simpl.
  destruct (run_statements drv 0 (split_statements lines) d2) as [[r d3] t3].
  simpl in *. subst r.
  destruct (cursor_close drv d3) as [[[]|e] d4]; simpl in *; [|discriminate].
  split; [reflexivity|]. rewrite recorded_app. simpl. now rewrite app_nil_r.
Qed.

Lemma failures_do_not_change_the_result_witness :
  outcome_of (execute_sql_file (counting_driver 0)) 0 = Ok true /\
  recorded (trace_of (execute_sql_file (counting_driver 0)) 0) =
    [Failure (of_string "1064"); Success; Success].
Proof.
  apply (failures_do_not_change_the_result nat (counting_driver 0) 0 0 0
           scenario_lines [Failure (of_string "1064"); Success; Success]);
    reflexivity.
Defined.

(** X14: when [execute_sql_file] returns [False], the last thing it did
    was to report the exception it caught, and the cursor was not closed:
    [cursor.close()] was not called, or it raised. *)
Theorem false_means_cursor_left_open (D : Type) (drv : driver D) (d : D) :
  outcome_of (execute_sql_file drv) d = Ok false ->
  cursor_closed (trace_of (execute_sql_file drv) d) = false /\
  exists err, last (trace_of (execute_sql_file drv) d) (Print MsgStart) =
              Print (MsgFileFailed err).
Proof.
  unfold outcome_of, trace_of, execute_sql_file, try_except, bind, call, print, ret.
  cbv beta.
  destruct (cursor drv d) as [[[]|[]] d1]; simpl; try discriminate;
    try (intros _; split; [reflexivity|eexists; reflexivity]).
  destruct (readlines drv d1) as [[lines|[]] d2]; simpl; try discriminate;
    try (intros _; split; [reflexivity|eexists; reflexivity]).
  pose proof (only_calls_run_statements D drv statement_call
                (split_statements lines) (fun op H => H) 0 d2) as Hcalls.
  apply statement_calls_no_cursor_close in Hcalls.
  unfold trace_of in Hcalls.
  destruct (run_statements drv 0 (split_statements lines) d2) as [[[[]|[]] d3] t3];
    simpl in *; try discriminate;
    try (intros _; rewrite cursor_closed_app, Hcalls; split;
         [reflexivity|eexists; apply last_event_snoc]).
  destruct (cursor_close drv d3) as [[[]|[]] d4]; simpl; try discriminate;
    intros _; split.
  all: try (rewrite 2!cursor_closed_app, Hcalls; reflexivity).
  all: eexists; apply last_event_snoc.
Qed.

Lemma false_means_cursor_left_open_witness :
  cursor_closed
    (trace_of (execute_sql_file
                 (unreadable_driver (OtherException (of_string "PermissionError")))) 0) = false /\
  exists err,
    last (trace_of (execute_sql_file
                      (unreadable_driver (OtherException (of_string "PermissionError")))) 0)
         (Print MsgStart) = Print (MsgFileFailed err).
Proof.
  apply (false_means_cursor_left_open nat
           (unreadable_driver (OtherException (of_string "PermissionError"))) 0).
  reflexivity.
Defined.

(** ** The verification *)

Section Verification.

Variable D : Type.
Variable drv : driver D.

Lemma print_users_no_calls (users : list (list str)) (d : D) :
  calls (trace_of (@print_users D users) d) = [].
Proof.
  pose proof (only_calls_print_users D (fun _ => false) users d) as H.
  destruct (calls (trace_of (@print_users D users) d)); [reflexivity|discriminate].
Qed.

Lemma only_calls_fetchone_0 : only_calls verify_call (fetchone_0 drv).
Proof.
  unfold fetchone_0. apply only_calls_bind.
  - now apply only_calls_call.
  - intros [row|]; [apply only_calls_index|apply only_calls_raise].
Qed.

Lemma only_calls_sql (s : string) : only_calls verify_call (sql drv s).
Proof. unfold sql. now apply only_calls_call. Qed.

Lemma only_calls_verify_data : only_calls verify_call (verify_data drv).
Proof.
  unfold verify_data. apply only_calls_try_except.
  - repeat (apply only_calls_bind;
            [first [ apply only_calls_sql | apply only_calls_fetchone_0
                   | apply only_calls_print | apply only_calls_print_users
                   | apply only_calls_call; reflexivity ]
            |intros ?]).
    now apply only_calls_call.
  - intros e h E. destruct e; inversion E; subst. apply only_calls_print.
Qed.

Ltac prefix_found :=
  solve [ exists 0; reflexivity | exists 1; reflexivity | exists 2; reflexivity
        | exists 3; reflexivity | exists 4; reflexivity | exists 5; reflexivity ].

Lemma verify_data_queries (d : D) :
  exists n, attempted (trace_of (verify_data drv) d) = firstn n verify_queries.
Proof.
  unfold trace_of, verify_data, sql, fetchone_0, index, try_except, bind,
    call, print, ret, raise.
  cbv beta.
  destruct (cursor drv d) as [[[]|[]] d1]; simpl; try prefix_found.
  destruct (execute drv _ d1) as [[[]|[]] d2]; simpl; try prefix_found.
  destruct (execute drv _ d2) as [[[]|[]] d3]; simpl; try prefix_found.
  destruct (fetchone drv d3) as [[[[|v1 r1]|]|[]] d4]; simpl; try prefix_found.
  destruct (execute drv _ d4) as [[[]|[]] d5]; simpl; try prefix_found.
  destruct (fetchone drv d5) as [[[[|v2 r2]|]|[]] d6]; simpl; try prefix_found.
  destruct (execute drv _ d6) as [[[]|[]] d7]; simpl; try prefix_found.
  destruct (fetchone drv d7) as [[[[|v3 r3]|]|[]] d8]; simpl; try prefix_found.
  destruct (execute drv _ d8) as [[[]|[]] d9]; simpl; try prefix_found.
  destruct (fetchall drv d9) as [[users|[]] d10]; simpl; try prefix_found.
  pose proof (print_users_no_calls users d10) as Hu. unfold trace_of in Hu.
  assert (Ha : attempted (snd (@print_users D users d10)) = []).
  { apply attempted_calls. now rewrite Hu. }
  destruct (@print_users D users d10) as [[[[]|[]] d11] tu]; simpl in Ha |- *;
    rewrite ?attempted_app, ?Ha; simpl; try prefix_found.
  destruct (cursor_close drv d11) as [[[]|[]] d12]; simpl;
    rewrite ?attempted_app, ?Ha; simpl; prefix_found.
Qed.

End Verification.

(** X15: [verify_data] only reads: whatever the driver does, it opens a
    cursor, executes, fetches and closes the cursor, and never commits nor
    closes the connection; the statements it submits are its five fixed
    statements, in order, up to the point where it stops. *)
Theorem verify_data_only_reads (D : Type) (drv : driver D) (d : D) :
  forallb verify_call (calls (trace_of (verify_data drv) d)) = true /\
  commits (trace_of (verify_data drv) d) = 0 /\
  exists n, attempted (trace_of (verify_data drv) d) = firstn n verify_queries.
Proof.
  pose proof (only_calls_verify_data D drv d) as Hcalls.
  split; [exact Hcalls|]. split; [|apply verify_data_queries].
  induction (trace_of (verify_data drv) d) as [|e t IH]; [reflexivity|].
  destruct e as [op exc|m]; simpl in *; [|now apply IH].
  apply andb_prop in Hcalls as [Hop Ht].
  destruct op; try discriminate Hop; now apply IH.
Qed.

(** ** The whole run *)

Section WholeRun.

Variable D : Type.
Variable drv : driver D.

Lemma main_connected (d d1 d2 : D) :
  path_exists drv d = (true, d1) ->
  connect drv d1 = (Ok tt, d2) ->
  exists closing,
    trace_of (main drv) d =
      [Print MsgStart; Call OpExists None; Call OpConnect None] ++
      trace_of (import_and_verify drv) d2 ++ closing /\
    calls closing = [OpClose].
Proof.
  intros Hexists Hconnect.
  unfold trace_of, main, connect_to_mysql.
  change (bind (execute_sql_file drv) _) with (import_and_verify drv).
  generalize (import_and_verify drv) as body. intros body.
  unfold bind, try_finally, try_except, call, print, ret, raise. cbv beta.
  rewrite Hexists. simpl. rewrite Hconnect. simpl.
  destruct (body d2) as [[rb d3] tb]. simpl.
  destruct (close drv d3) as [[[]|ec] d4]; simpl; eexists; split; reflexivity.
Qed.

Lemma only_calls_execute_sql_file :
  only_calls import_call (execute_sql_file drv).
Proof.
  unfold execute_sql_file. apply only_calls_try_except.
  - apply only_calls_bind; [now apply only_calls_call|intros _].
    apply only_calls_bind; [now apply only_calls_call|intros lines].
    apply only_calls_bind;
      [apply only_calls_run_statements; now intros []|intros _].
    apply only_calls_bind; [now apply only_calls_call|intros _].
    apply only_calls_bind; [apply only_calls_print|intros _].
    apply only_calls_ret.
  - intros e h E. destruct e; inversion E; subst;
      (apply only_calls_bind; [apply only_calls_print|intros _; apply only_calls_ret]).
Qed.

Lemma execute_sql_file_true_completed (d : D) :
  outcome_of (execute_sql_file drv) d = Ok true ->
  In (Print MsgCompleted) (trace_of (execute_sql_file drv) d).
Proof.
  unfold outcome_of, trace_of, execute_sql_file, try_except, bind, call, print, ret.
  cbv beta.
  destruct (cursor drv d) as [[[]|[]] d1]; simpl; try discriminate.
  destruct (readlines drv d1) as [[lines|[]] d2]; simpl; try discriminate.
  destruct (run_statements drv 0 (split_statements lines) d2) as [[[[]|[]] d3] t3];
    simpl; try discriminate.
  destruct (cursor_close drv d3) as [[[]|[]] d4]; simpl; try discriminate.
  intros _. right. right. apply in_or_app. right. simpl. auto.
Qed.

Lemma import_calls_no_fetch (ops : list operation) :
  forallb import_call ops = true -> existsb is_fetch ops = false.
Proof.
  induction ops as [|op ops IH]; [reflexivity|]. simpl. intros H.
  apply andb_prop in H as [Hop Hops]. rewrite (IH Hops).
  destruct op; try discriminate Hop; reflexivity.
Qed.

Lemma import_and_verify_fetch (d : D) :
  existsb is_fetch (calls (trace_of (import_and_verify drv) d)) = true ->
  In (Print MsgCompleted) (trace_of (import_and_verify drv) d).
Proof.
  pose proof (only_calls_execute_sql_file d) as Hcalls.
  pose proof (execute_sql_file_true_completed d) as Htrue.
  apply import_calls_no_fetch in Hcalls.
  unfold import_and_verify, trace_of, outcome_of, bind, print in *. cbv beta.
  destruct (execute_sql_file drv d) as [[[[|]|e] d1] t1]; simpl in *.
  - intros _. destruct (verify_data drv d1) as [[r d2] t2]. simpl.
    apply in_or_app. left. now apply Htrue.
  - rewrite calls_app, existsb_app, Hcalls. discriminate.
  - rewrite Hcalls. discriminate.
Qed.

End WholeRun.

(** X16: when the script file does not exist, [main] exits with status 1
    after the test of line 123: it never calls the driver. *)
Theorem missing_file_exits (D : Type) (drv : driver D) (d : D) :
  fst (path_exists drv d) = false ->
  outcome_of (main drv) d = Raise (SystemExit 1) /\
  calls (trace_of (main drv) d) = [OpExists] /\
  In (Print MsgFileMissing) (trace_of (main drv) d).
Proof.
  unfold outcome_of, trace_of, main, bind, call, print, raise. cbv beta.
  destruct (path_exists drv d) as [b d1]. simpl. intros ->. simpl.
  repeat split. auto.
Qed.

Lemma missing_file_exits_witness :
  outcome_of (main absent_file_driver) 0 = Raise (SystemExit 1) /\
  calls (trace_of (main absent_file_driver) 0) = [OpExists] /\
  In (Print MsgFileMissing) (trace_of (main absent_file_driver) 0).
Proof.
  apply (missing_file_exits nat absent_file_driver 0).
  reflexivity.
Defined.

(** X17: when [mysql.connector.connect] raises a database error, [main]
    reports it and exits with status 1 without any further call; any other
    exception of [connect] leaves [main] as it is. *)
Theorem failed_connection_exits (D : Type) (drv : driver D) (d : D) (e : exn) :
  fst (path_exists drv d) = true ->
  fst (connect drv (snd (path_exists drv d))) = Raise e ->
  calls (trace_of (main drv) d) = [OpExists; OpConnect] /\
  outcome_of (main drv) d =
    (if is_database_error e then Raise (SystemExit 1) else Raise e) /\
  (forall err, e = MySQLError err ->
     In (Print (MsgConnectFailed err)) (trace_of (main drv) d)).
Proof.
  unfold outcome_of, trace_of, main, connect_to_mysql.
  generalize (bind (execute_sql_file drv)
                (fun imported : bool =>
                   if imported
                   then bind (print MsgVerifying) (fun _ => verify_data drv)
                   else print MsgImportFailed)) as body.
  intros body.
  unfold bind, try_finally, try_except, call, print, ret, raise. cbv beta.
  destruct (path_exists drv d) as [b d1]. simpl. intros ->. simpl.
  destruct (connect drv d1) as [r d2]. simpl. intros ->.
  destruct e; simpl; repeat split; try discriminate.
  intros err H. inversion H; subst. auto.
Qed.

Lemma failed_connection_exits_witness :
  calls (trace_of (main (refusing_driver (MySQLError (of_string "2003")))) 0) =
    [OpExists; OpConnect] /\
  outcome_of (main (refusing_driver (MySQLError (of_string "2003")))) 0 =
    Raise (SystemExit 1).
Proof.
  destruct (failed_connection_exits nat
              (refusing_driver (MySQLError (of_string "2003"))) 0
              (MySQLError (of_string "2003")) eq_refl eq_refl) as (H1 & H2 & _).
  split; [exact H1|exact H2].
Defined.

(** X18: without a connection nothing is done on the database: when
    [connect] did not return, [main] executes no statement, commits
    nothing and does not call [close]. *)
Theorem no_connection_no_database_call (D : Type) (drv : driver D) (d : D) :
  established (trace_of (main drv) d) = false ->
  closes (trace_of (main drv) d) = 0 /\
  attempted (trace_of (main drv) d) = [] /\
  commits (trace_of (main drv) d) = 0.
Proof.
  destruct (path_exists drv d) as [b d1] eqn:Hexists.
  destruct b.
  - destruct (connect drv d1) as [[[]|e] d2] eqn:Hconnect.
    + destruct (main_connected D drv d d1 d2 Hexists Hconnect) as (closing & -> & _).
      simpl. discriminate.
    + intros _.
      unfold trace_of, main, connect_to_mysql.
      generalize (bind (execute_sql_file drv)
                    (fun imported : bool =>
                       if imported
                       then bind (print MsgVerifying) (fun _ => verify_data drv)
                       else print MsgImportFailed)) as body.
      intros body.
      unfold bind, try_finally, try_except, call, print, ret, raise. cbv beta.
      rewrite Hexists. simpl. rewrite Hconnect.
      destruct e; simpl; now repeat split.
  - intros _.
    unfold trace_of, main, bind, call, print, raise. cbv beta.
    rewrite Hexists. simpl. now repeat split.
Qed.

Lemma no_connection_no_database_call_witness :
  closes (trace_of (main (refusing_driver (OtherException (of_string "ssl")))) 0) = 0 /\
  attempted (trace_of (main (refusing_driver (OtherException (of_string "ssl")))) 0) = [] /\
  commits (trace_of (main (refusing_driver (OtherException (of_string "ssl")))) 0) = 0.
Proof.
  apply (no_connection_no_database_call nat
           (refusing_driver (OtherException (of_string "ssl"))) 0).
  reflexivity.
Defined.

(** X19: [main] verifies only what was imported: a row is fetched only in
    a run in which [execute_sql_file] went through to its end and reported
    the import complete. *)
Theorem verification_only_after_import (D : Type) (drv : driver D) (d : D) :
  existsb is_fetch (calls (trace_of (main drv) d)) = true ->
  In (Print MsgCompleted) (trace_of (main drv) d).
Proof.
  destruct (path_exists drv d) as [b d1] eqn:Hexists.
  destruct b.
  - destruct (connect drv d1) as [[[]|e] d2] eqn:Hconnect.
    + destruct (main_connected D drv d d1 d2 Hexists Hconnect)
        as (closing & -> & Hclosing).
      rewrite !calls_app, !existsb_app, Hclosing. simpl.
      rewrite orb_false_r. intros H.
      right. right. right. apply in_or_app. left.
      now apply import_and_verify_fetch.
    + unfold trace_of, main, connect_to_mysql.
      generalize (bind (execute_sql_file drv)
                    (fun imported : bool =>
                       if imported
                       then bind (print MsgVerifying) (fun _ => verify_data drv)
                       else print MsgImportFailed)) as body.
      intros body.
      unfold bind, try_finally, try_except, call, print, ret, raise. cbv beta.
      rewrite Hexists. simpl. rewrite Hconnect.
      destruct e; simpl; discriminate.
  - unfold trace_of, main, bind, call, print, raise. cbv beta.
    rewrite Hexists. simpl. discriminate.
Qed.

Lemma verification_only_after_import_witness :
  In (Print MsgCompleted) (trace_of (main (counting_driver 1)) 0).
Proof.
  apply (verification_only_after_import nat (counting_driver 1) 0).
  reflexivity.
Defined.

(** ** The cursor of the verification *)

Lemma no_calls_no_cursor_close (t : list event) :
  calls t = [] -> cursor_closed t = false.
Proof.
  induction t as [|e t IH]; [reflexivity|].
  destruct e as [op exc|m]; simpl; [discriminate|exact IH].
Qed.

(** X20: [verify_data] closes its cursor only at the end of a complete
    verification: when [cursor.close()] returned, the five statements were
    all executed, in order, and [verify_data] returns normally; on any
    failure before, the cursor is left open. *)
Theorem verify_data_closes_cursor_last (D : Type) (drv : driver D) (d : D) :
  cursor_closed (trace_of (verify_data drv) d) = true ->
  outcome_of (verify_data drv) d = Ok tt /\
  attempted (trace_of (verify_data drv) d) = verify_queries.
Proof.
  unfold outcome_of, trace_of, verify_data, sql, fetchone_0, index, try_except,
    bind, call, print, ret, raise.
  cbv beta.
  destruct (cursor drv d) as [[[]|[]] d1]; simpl; try discriminate.
  destruct (execute drv _ d1) as [[[]|[]] d2]; simpl; try discriminate.
  destruct (execute drv _ d2) as [[[]|[]] d3]; simpl; try discriminate.
  destruct (fetchone drv d3) as [[[[|v1 r1]|]|[]] d4]; simpl; try discriminate.
  destruct (execute drv _ d4) as [[[]|[]] d5]; simpl; try discriminate.
  destruct (fetchone drv d5) as [[[[|v2 r2]|]|[]] d6]; simpl; try discriminate.
  destruct (execute drv _ d6) as [[[]|[]] d7]; simpl; try discriminate.
  destruct (fetchone drv d7) as [[[[|v3 r3]|]|[]] d8]; simpl; try discriminate.
  destruct (execute drv _ d8) as [[[]|[]] d9]; simpl; try discriminate.
  destruct (fetchall drv d9) as [[users|[]] d10]; simpl; try discriminate.
  pose proof (print_users_no_calls D users d10) as Hu. unfold trace_of in Hu.
  assert (Ha : attempted (snd (@print_users D users d10)) = []).
  { apply attempted_calls. now rewrite Hu. }
  apply no_calls_no_cursor_close in Hu.
  destruct (@print_users D users d10) as [[[[]|[]] d11] tu]; simpl in Ha, Hu |- *;
    rewrite ?Hu; try discriminate;
    try (rewrite cursor_closed_app, Hu; discriminate).
  destruct (cursor_close drv d11) as [[[]|[]] d12]; simpl;
    try (rewrite ?cursor_closed_app, Hu; discriminate).
  intros _. split; [reflexivity|].
  now rewrite attempted_app, Ha.
Qed.

Lemma verify_data_closes_cursor_last_witness :
  outcome_of (verify_data populated_driver) 0 = Ok tt /\
  attempted (trace_of (verify_data populated_driver) 0) = verify_queries.
Proof.
  apply (verify_data_closes_cursor_last nat populated_driver 0).
  reflexivity.
Defined.
